(** * ColdMailer: the two prospecting pages, embedded and verified

    The repository holds two single-page React applications:
    - [ProspectingHub]  : src/cold-mailer/src/App.jsx ("AI Prospecting Hub");
    - [WorkflowHelper]  : the second page ("Prospecting Workflow Helper").

    Both keep a list of prospect records in component state, mirror it to
    [localStorage] as one JSON array, and derive text (search URLs, email
    guesses, a draft email, a CSV document) from the form fields.

    Strings are Rocq [string]s read as sequences of code units below 256
    (the Latin-1 range of a JavaScript string); every runtime function
    modelled in [JS] is exact on that range. *)

From Stdlib Require Import ZArith NArith Ascii String List Bool Lia.
From Stdlib Require Import DecimalString DecimalN DecimalFacts.
From stdpp Require Import gmap strings.
Import ListNotations.

Local Open Scope Z_scope.

(** ** The JavaScript runtime the pages rely on *)
Module JS.

(** Characters that cannot be written inside a Rocq string literal. *)
Definition LF : string := String (ascii_of_nat 10) "".
Definition DQ : string := String (ascii_of_nat 34) "".

(** [!s] for a string: only the empty string is falsy. *)
Definition falsy (s : string) : bool :=
  match s with
  | EmptyString => true
  | String _ _ => false
  end.

Definition truthy (s : string) : bool := negb (falsy s).

(** [String.prototype.toLowerCase] on code units below 256: A-Z and the
    Latin-1 capitals U+00C0..U+00DE (without the multiplication sign U+00D7)
    move up by 32, everything else stays. *)
Definition lower_unit (c : ascii) : ascii :=
  let n := N_of_ascii c in
  if ((65 <=? n) && (n <=? 90))%N
     || ((192 <=? n) && (n <=? 222) && negb (n =? 215))%N
  then ascii_of_N (n + 32)
  else c.

Fixpoint toLowerCase (s : string) : string :=
  match s with
  | EmptyString => EmptyString
  | String c s' => String (lower_unit c) (toLowerCase s')
  end.

(** [s[0]]: the first code unit as a one-unit string, [undefined] on the
    empty string. *)
Definition index0 (s : string) : option string :=
  match s with
  | EmptyString => None
  | String c _ => Some (String c EmptyString)
  end.

(** [x || ''] for a value that is a string or [undefined]. *)
Definition or_empty (x : option string) : string :=
  match x with
  | Some s => if falsy s then "" else s
  | None => ""
  end.

(** [${x}] inside a template literal, for a value that is a string or
    [undefined]. *)
Definition interpolate (x : option string) : string :=
  match x with
  | Some s => s
  | None => "undefined"
  end.

(** [Array.prototype.join] on an array of strings. *)
Fixpoint join (sep : string) (l : list string) : string :=
  match l with
  | [] => ""
  | [x] => x
  | x :: rest => x +:+ sep +:+ join sep rest
  end.

(** [String.prototype.split] with a one-unit separator. *)
Fixpoint split_on (sep : ascii) (s : string) : list string :=
  match s with
  | EmptyString => [EmptyString]
  | String c s' =>
      if Ascii.eqb c sep then EmptyString :: split_on sep s'
      else match split_on sep s' with
           | [] => [String c EmptyString]
           | x :: rest => String c x :: rest
           end
  end.

(** [s.split(sep)[0]]: the array [split] returns is never empty. *)
Definition split_first (sep : ascii) (s : string) : string :=
  match split_on sep s with
  | x :: _ => x
  | [] => s
  end.

(** [s.includes(c)] for a one-unit string [c]. *)
Fixpoint includes_unit (c : ascii) (s : string) : bool :=
  match s with
  | EmptyString => false
  | String d s' => Ascii.eqb d c || includes_unit c s'
  end.

(** The lines of a text: its pieces between line feeds. *)
Definition lines (s : string) : list string := split_on (ascii_of_nat 10) s.

(** The white space [String.prototype.trim] removes, on code units below
    256: TAB, LF, VT, FF, CR, SPACE and NO-BREAK SPACE. *)
Definition is_trim_space (c : ascii) : bool :=
  let n := N_of_ascii c in
  ((9 <=? n) && (n <=? 13) || (n =? 32) || (n =? 160))%N.

Fixpoint trimStart (s : string) : string :=
  match s with
  | EmptyString => EmptyString
  | String c s' => if is_trim_space c then trimStart s' else s
  end.

Fixpoint trimEnd (s : string) : string :=
  match s with
  | EmptyString => EmptyString
  | String c s' =>
      match trimEnd s' with
      | EmptyString => if is_trim_space c then EmptyString else String c EmptyString
      | t => String c t
      end
  end.

Definition trim (s : string) : string := trimEnd (trimStart s).

(** *** encodeURIComponent and encodeURI

    A code unit that is not kept is replaced by the escaped bytes of its
    UTF-8 form: one byte below 128, two bytes from 128 to 255. *)
Definition is_alnum (c : ascii) : bool :=
  let n := N_of_ascii c in
  ((48 <=? n) && (n <=? 57) || (65 <=? n) && (n <=? 90)
   || (97 <=? n) && (n <=? 122))%N.

Definition one_of (set : string) (c : ascii) : bool :=
  existsb (Ascii.eqb c) (list_ascii_of_string set).

(** uriUnescaped: letters, digits and the marks. *)
Definition uri_unescaped (c : ascii) : bool :=
  is_alnum c || one_of "-_.!~*'()" c.

(** uriReserved plus the number sign, kept by [encodeURI] only. *)
Definition uri_reserved_or_hash (c : ascii) : bool :=
  one_of ";/?:@&=+$,#" c.

Definition HEX_digit (n : N) : ascii :=
  if (n <? 10)%N then ascii_of_N (48 + n) else ascii_of_N (55 + n).

Definition percent (byte : N) : string :=
  String "%" (String (HEX_digit (byte / 16)) (String (HEX_digit (byte mod 16)) "")).

Definition encode_unit (keep : ascii -> bool) (c : ascii) : string :=
  let n := N_of_ascii c in
  if keep c then String c ""
  else if (n <? 128)%N then percent n
  else percent (192 + n / 64) +:+ percent (128 + n mod 64).

Fixpoint encode (keep : ascii -> bool) (s : string) : string :=
  match s with
  | EmptyString => EmptyString
  | String c s' => encode_unit keep c +:+ encode keep s'
  end.

Definition encodeURIComponent (s : string) : string := encode uri_unescaped s.

Definition encodeURI (s : string) : string :=
  encode (fun c => uri_unescaped c || uri_reserved_or_hash c) s.

(** [every f s]: all code units of [s] pass [f]. *)
Fixpoint every (f : ascii -> bool) (s : string) : bool :=
  match s with
  | EmptyString => true
  | String c s' => f c && every f s'
  end.

(** The units an escaped component is made of: unescaped characters and
    the percent sign of an escape (whose two digits are unescaped). *)
Definition url_char (c : ascii) : bool :=
  uri_unescaped c || Ascii.eqb c "%".

(** *** localStorage

    A [Storage] area maps keys to strings: [getItem] is lookup ([null] on a
    missing key), [setItem] is insertion. *)
Definition getItem (key : string) (store : gmap string string) : option string :=
  store !! key.

Definition setItem (key value : string) (store : gmap string string)
  : gmap string string :=
  <[key := value]> store.

(** *** JSON values

    Numbers are the integers a Number holds exactly; an object lists its
    members in property order. *)
Unset Elimination Schemes.
Inductive json : Type :=
| JNull
| JBool (b : bool)
| JNum (n : Z)
| JStr (s : string)
| JArr (elems : list json)
| JObj (members : list (string * json)).
Set Elimination Schemes.

(** Induction on JSON values, with the elements of arrays and the member
    values of objects as induction hypotheses. *)
Definition json_ind (Q : json -> Prop)
  (Hnull : Q JNull)
  (Hbool : forall b, Q (JBool b))
  (Hnum : forall n, Q (JNum n))
  (Hstr : forall s, Q (JStr s))
  (Harr : forall elems, Forall Q elems -> Q (JArr elems))
  (Hobj : forall members, Forall (fun kv => Q (snd kv)) members -> Q (JObj members))
  : forall v, Q v :=
  fix go (v : json) : Q v :=
    match v with
    | JNull => Hnull
    | JBool b => Hbool b
    | JNum n => Hnum n
    | JStr s => Hstr s
    | JArr elems =>
        Harr elems
          ((fix all (l : list json) : Forall Q l :=
              match l with
              | [] => List.Forall_nil Q
              | x :: l' => @List.Forall_cons _ Q x l' (go x) (all l')
              end) elems)
    | JObj members =>
        Hobj members
          ((fix all (l : list (string * json)) : Forall (fun kv => Q (snd kv)) l :=
              match l with
              | [] => List.Forall_nil _
              | x :: l' => @List.Forall_cons _ (fun kv => Q (snd kv)) x l' (go (snd x)) (all l')
              end) members)
    end.

Definition max_safe_integer : Z := 9007199254740991.

Definition safe_integer (n : Z) : bool :=
  (- max_safe_integer <=? n) && (n <=? max_safe_integer).

(** *** JSON.stringify (one argument, no indentation) *)

Definition hex_digit (n : N) : ascii :=
  if (n <? 10)%N then ascii_of_N (48 + n) else ascii_of_N (87 + n).

(** QuoteJSONString on one code unit below 256. *)
Definition escape_unit (c : ascii) : string :=
  let n := N_of_ascii c in
  if (n =? 34)%N then "\" +:+ DQ
  else if (n =? 92)%N then "\\"
  else if (n =? 8)%N then "\b"
  else if (n =? 12)%N then "\f"
  else if (n =? 10)%N then "\n"
  else if (n =? 13)%N then "\r"
  else if (n =? 9)%N then "\t"
  else if (n <? 32)%N then
    "\u00" +:+ String (hex_digit (n / 16)) (String (hex_digit (n mod 16)) "")
  else String c "".

Fixpoint escape (s : string) : string :=
  match s with
  | EmptyString => EmptyString
  | String c s' => escape_unit c +:+ escape s'
  end.

Definition quote (s : string) : string := DQ +:+ escape s +:+ DQ.

Definition digits_of_N (n : N) : string := NilEmpty.string_of_uint (N.to_uint n).

Definition number_to_string (n : Z) : string :=
  if n <? 0 then "-" +:+ digits_of_N (Z.to_N (- n)) else digits_of_N (Z.to_N n).

Fixpoint stringify (v : json) : string :=
  match v with
  | JNull => "null"
  | JBool true => "true"
  | JBool false => "false"
  | JNum n => number_to_string n
  | JStr s => quote s
  | JArr elems => "[" +:+ join "," (map stringify elems) +:+ "]"
  | JObj members =>
      "{" +:+
      join "," (map (fun kv => quote (fst kv) +:+ ":" +:+ stringify (snd kv)) members)
      +:+ "}"
  end.

(** *** JSON.parse (one argument)

    The internal functions return the value read, a flag telling whether
    the value is one this model represents exactly, and the rest of the
    text; [None] is a syntax error. The flag is cleared for a [\u] escape
    of a code unit above 255, for a number that is not a safe integer
    written without fraction and exponent, and for an object whose keys
    repeat or look like array indices (JavaScript reorders those). *)

Definition is_ws (c : ascii) : bool :=
  let n := N_of_ascii c in
  ((n =? 32) || (n =? 9) || (n =? 10) || (n =? 13))%N.

Fixpoint skip_ws (s : string) : string :=
  match s with
  | EmptyString => EmptyString
  | String c s' => if is_ws c then skip_ws s' else s
  end.

Definition is_digit (c : ascii) : bool :=
  let n := N_of_ascii c in ((48 <=? n) && (n <=? 57))%N.

Definition hex_value (c : ascii) : option N :=
  let n := N_of_ascii c in
  if ((48 <=? n) && (n <=? 57))%N then Some (n - 48)%N
  else if ((97 <=? n) && (n <=? 102))%N then Some (n - 87)%N
  else if ((65 <=? n) && (n <=? 70))%N then Some (n - 55)%N
  else None.

Definition hex4 (a b c d : ascii) : option N :=
  match hex_value a, hex_value b, hex_value c, hex_value d with
  | Some x, Some y, Some z, Some w => Some (((x * 16 + y) * 16 + z) * 16 + w)%N
  | _, _, _, _ => None
  end.

(** The unit a two-character escape stands for. *)
Definition simple_escape (e : ascii) : option ascii :=
  let n := N_of_ascii e in
  if (n =? 34)%N then Some e
  else if (n =? 92)%N then Some e
  else if (n =? 47)%N then Some e
  else if (n =? 98)%N then Some (ascii_of_N 8)
  else if (n =? 102)%N then Some (ascii_of_N 12)
  else if (n =? 110)%N then Some (ascii_of_N 10)
  else if (n =? 114)%N then Some (ascii_of_N 13)
  else if (n =? 116)%N then Some (ascii_of_N 9)
  else None.

(** The characters of a string literal, after its opening quote and
    through its closing quote. *)
Fixpoint parse_chars (s : string) : option (string * bool * string) :=
  match s with
  | EmptyString => None
  | String c s1 =>
      let n := N_of_ascii c in
      if (n =? 34)%N then Some (EmptyString, true, s1)
      else if (n =? 92)%N then
        match s1 with
        | EmptyString => None
        | String e s2 =>
            if (N_of_ascii e =? 117)%N then
              match s2 with
              | String h1 (String h2 (String h3 (String h4 s3))) =>
                  match hex4 h1 h2 h3 h4 with
                  | Some u =>
                      match parse_chars s3 with
                      | Some (t, exact, rest) =>
                          if (u <? 256)%N
                          then Some (String (ascii_of_N u) t, exact, rest)
                          else Some (t, false, rest)
                      | None => None
                      end
                  | None => None
                  end
              | _ => None
              end
            else
              match simple_escape e with
              | Some ch =>
                  match parse_chars s2 with
                  | Some (t, exact, rest) => Some (String ch t, exact, rest)
                  | None => None
                  end
              | None => None
              end
        end
      else if (n <? 32)%N then None
      else
        match parse_chars s1 with
        | Some (t, exact, rest) => Some (String c t, exact, rest)
        | None => None
        end
  end.

Fixpoint span_digits (s : string) : string * string :=
  match s with
  | EmptyString => (EmptyString, EmptyString)
  | String c s' =>
      if is_digit c
      then let (ds, rest) := span_digits s' in (String c ds, rest)
      else (EmptyString, s)
  end.

(** [0] or a digit run that does not start with [0]. *)
Definition parse_int (s : string) : option (string * string) :=
  match span_digits s with
  | (EmptyString, _) => None
  | (String c ds, rest) =>
      if (N_of_ascii c =? 48)%N && negb (falsy ds) then None
      else Some (String c ds, rest)
  end.

Definition parse_frac (s : string) : option (bool * string) :=
  match s with
  | String c s' =>
      if (N_of_ascii c =? 46)%N then
        match span_digits s' with
        | (EmptyString, _) => None
        | (_, rest) => Some (true, rest)
        end
      else Some (false, s)
  | EmptyString => Some (false, s)
  end.

Definition skip_sign (s : string) : string :=
  match s with
  | String c s' =>
      if ((N_of_ascii c =? 43) || (N_of_ascii c =? 45))%N then s' else s
  | EmptyString => s
  end.

Definition parse_exp (s : string) : option (bool * string) :=
  match s with
  | String c s' =>
      if ((N_of_ascii c =? 101) || (N_of_ascii c =? 69))%N then
        match span_digits (skip_sign s') with
        | (EmptyString, _) => None
        | (_, rest) => Some (true, rest)
        end
      else Some (false, s)
  | EmptyString => Some (false, s)
  end.

Definition N_of_digits (ds : string) : N :=
  match NilEmpty.uint_of_string ds with
  | Some u => N.of_uint u
  | None => 0%N
  end.

(** The digits of a number and what may follow them; [neg] tells whether a
    minus sign came first. *)
Definition parse_unsigned (neg : bool) (s : string) : option (Z * bool * string) :=
  match parse_int s with
  | None => None
  | Some (ds, r1) =>
      match parse_frac r1 with
      | None => None
      | Some (has_frac, r2) =>
          match parse_exp r2 with
          | None => None
          | Some (has_exp, r3) =>
              let m := Z.of_N (N_of_digits ds) in
              let exact :=
                negb has_frac && negb has_exp && negb (neg && (m =? 0))
                && (m <=? max_safe_integer) in
              Some (if neg then - m else m, exact, r3)
          end
      end
  end.

Definition parse_number (s : string) : option (Z * bool * string) :=
  match s with
  | String c s' =>
      if (N_of_ascii c =? 45)%N then parse_unsigned true s'
      else parse_unsigned false s
  | EmptyString => parse_unsigned false s
  end.

(** [expect w s]: the text [s] without its prefix [w]. *)
Fixpoint expect (w s : string) : option string :=
  match w with
  | EmptyString => Some s
  | String a w' =>
      match s with
      | String b s' => if Ascii.eqb a b then expect w' s' else None
      | EmptyString => None
      end
  end.

Definition all_digits (k : string) : bool :=
  match span_digits k with
  | (String _ _, EmptyString) => true
  | _ => false
  end.

Fixpoint keys_plain (ks : list string) : bool :=
  match ks with
  | [] => true
  | k :: rest =>
      negb (all_digits k) && negb (existsb (String.eqb k) rest) && keys_plain rest
  end.

Fixpoint parse_value (fuel : nat) (s : string) : option (json * bool * string) :=
  match fuel with
  | O => None
  | S fuel' =>
      match skip_ws s with
      | EmptyString => None
      | String c s1 =>
          let n := N_of_ascii c in
          if (n =? 110)%N then
            match expect "ull" s1 with
            | Some rest => Some (JNull, true, rest)
            | None => None
            end
          else if (n =? 116)%N then
            match expect "rue" s1 with
            | Some rest => Some (JBool true, true, rest)
            | None => None
            end
          else if (n =? 102)%N then
            match expect "alse" s1 with
            | Some rest => Some (JBool false, true, rest)
            | None => None
            end
          else if (n =? 34)%N then
            match parse_chars s1 with
            | Some (t, exact, rest) => Some (JStr t, exact, rest)
            | None => None
            end
          else if (n =? 91)%N then
            match skip_ws s1 with
            | String d rest =>
                if (N_of_ascii d =? 93)%N then Some (JArr [], true, rest)
                else
                  match parse_elements fuel' s1 with
                  | Some (vs, exact, rest') => Some (JArr vs, exact, rest')
                  | None => None
                  end
            | EmptyString => None
            end
          else if (n =? 123)%N then
            match skip_ws s1 with
            | String d rest =>
                if (N_of_ascii d =? 125)%N then Some (JObj [], true, rest)
                else
                  match parse_members fuel' s1 with
                  | Some (ms, exact, rest') =>
                      Some (JObj ms, exact && keys_plain (map fst ms), rest')
                  | None => None
                  end
            | EmptyString => None
            end
          else if (n =? 45)%N || is_digit c then
            match parse_number (String c s1) with
            | Some (z, exact, rest) => Some (JNum z, exact, rest)
            | None => None
            end
          else None
      end
  end

(** One or more elements, through the closing bracket. *)
with parse_elements (fuel : nat) (s : string)
  : option (list json * bool * string) :=
  match fuel with
  | O => None
  | S fuel' =>
      match parse_value fuel' s with
      | None => None
      | Some (v, exact, r) =>
          match skip_ws r with
          | String d r' =>
              if (N_of_ascii d =? 44)%N then
                match parse_elements fuel' r' with
                | Some (vs, exact', rest) => Some (v :: vs, exact && exact', rest)
                | None => None
                end
              else if (N_of_ascii d =? 93)%N then Some ([v], exact, r')
              else None
          | EmptyString => None
          end
      end
  end

(** One or more members, through the closing brace. *)
with parse_members (fuel : nat) (s : string)
  : option (list (string * json) * bool * string) :=
  match fuel with
  | O => None
  | S fuel' =>
      match skip_ws s with
      | String q s1 =>
          if (N_of_ascii q =? 34)%N then
            match parse_chars s1 with
            | None => None
            | Some (k, kexact, r0) =>
                match skip_ws r0 with
                | String colon r1 =>
                    if (N_of_ascii colon =? 58)%N then
                      match parse_value fuel' r1 with
                      | None => None
                      | Some (v, exact, r) =>
                          match skip_ws r with
                          | String d r' =>
                              if (N_of_ascii d =? 44)%N then
                                match parse_members fuel' r' with
                                | Some (ms, exact', rest) =>
                                    Some ((k, v) :: ms,
                                          kexact && exact && exact', rest)
                                | None => None
                                end
                              else if (N_of_ascii d =? 125)%N
                              then Some ([(k, v)], kexact && exact, r')
                              else None
                          | EmptyString => None
                          end
                      end
                    else None
                | EmptyString => None
                end
            end
          else None
      | EmptyString => None
      end
  end.

(** The three outcomes of [JSON.parse] on a text: the value, a value this
    model does not represent, or a thrown [SyntaxError]. *)
Inductive parsed : Type :=
| Parsed (v : json)
| Unrepresented
| SyntaxError.

(** Every nested call reads at least one character in two steps, so the
    recursion never runs out of steps on a text of this length. *)
Definition steps_for (s : string) : nat := 2 * String.length s + 2.

Definition parse (s : string) : parsed :=
  match parse_value (steps_for s) s with
  | Some (v, exact, rest) =>
      match skip_ws rest with
      | EmptyString => if exact then Parsed v else Unrepresented
      | String _ _ => SyntaxError
      end
  | None => SyntaxError
  end.

(** The values [JSON.parse] gives back exactly: safe integers, and objects
    whose keys are distinct and not array indices. *)
Fixpoint representable (v : json) : bool :=
  match v with
  | JNull | JBool _ | JStr _ => true
  | JNum n => safe_integer n
  | JArr elems => forallb representable elems
  | JObj members =>
      keys_plain (map fst members)
      && forallb (fun kv => representable (snd kv)) members
  end.

(** A text that ends a value: nothing, or a comma or closing bracket. *)
Definition closes (rest : string) : bool :=
  match rest with
  | EmptyString => true
  | String c _ =>
      ((N_of_ascii c =? 44) || (N_of_ascii c =? 93) || (N_of_ascii c =? 125))%N
  end.

Definition starts_number (s : string) : bool :=
  match s with
  | String c _ => (N_of_ascii c =? 45)%N || is_digit c
  | EmptyString => false
  end.

(** A text whose first character can start an array element. *)
Definition starts_value (s : string) : bool :=
  match s with
  | String c _ => negb (is_ws c) && negb (N_of_ascii c =? 93)%N
  | EmptyString => false
  end.

(** One member of an object, as [stringify] writes it. *)
Definition member_text (kv : string * json) : string :=
  quote (fst kv) +:+ ":" +:+ stringify (snd kv).

(** What the induction proves of one value: followed by a text that ends
    a value, and given enough steps, it is read back exactly. *)
Definition reads_back (v : json) : Prop :=
  forall (rest : string) (fuel : nat),
    closes rest = true ->
    (2 * String.length (stringify v) + 1 <= fuel)%nat ->
    parse_value fuel (stringify v +:+ rest) = Some (v, true, rest).

End JS.

(** ** App.jsx: the "AI Prospecting Hub" page *)
Module ProspectingHub.
Import JS.

Definition guesses_prompt : string :=
  "Please enter a first name, last name, and domain to generate guesses.".

(** The [patterns] array of [generateAIGuesses]. *)
Definition patterns (firstName lastName domain : string) : list string :=
  let fn := toLowerCase firstName in
  let ln := toLowerCase lastName in
  let fi := or_empty (index0 fn) in
  let li := or_empty (index0 ln) in
  [ fn +:+ "." +:+ ln +:+ "@" +:+ domain;
    fi +:+ ln +:+ "@" +:+ domain;
    fn +:+ li +:+ "@" +:+ domain;
    fn +:+ "@" +:+ domain;
    ln +:+ "@" +:+ domain;
    fn +:+ "_" +:+ ln +:+ "@" +:+ domain;
    fi +:+ "." +:+ ln +:+ "@" +:+ domain;
    fn +:+ ln +:+ "@" +:+ domain;
    ln +:+ "." +:+ fn +:+ "@" +:+ domain;
    interpolate (index0 fn) +:+ interpolate (index0 ln) +:+ "@" +:+ domain ].

Definition generateAIGuesses (firstName lastName domain : string) : string :=
  if falsy firstName || falsy lastName || falsy domain
  then guesses_prompt
  else join LF (patterns firstName lastName domain).

Definition myService : string := "[Your Service, e.g., 'modern web design']".
Definition myValueProp : string :=
  "[Your Value Prop, e.g., 'help companies increase user engagement']".
Definition myName : string := "[Your Name]".

Definition draft_prompt : string :=
  "Please enter at least a first name to draft an email.".

Definition draftAIEmail (firstName company : string) : string :=
  if falsy firstName then draft_prompt
  else
    "Subject: Quick question re: " +:+ company +:+ LF +:+
    LF +:+
    "Hi " +:+ firstName +:+ "," +:+ LF +:+
    LF +:+
    "I was on " +:+ company +:+
      "'s website and noticed you're the [Prospect's Title]." +:+ LF +:+
    LF +:+
    "I specialize in " +:+ myService +:+ " and " +:+ myValueProp +:+
      ". I had a quick idea on how you could [Specific Idea for Them]." +:+ LF +:+
    LF +:+
    "Would you be open to a 10-minute chat next week if you're interested?" +:+ LF +:+
    LF +:+
    "Best," +:+ LF +:+
    LF +:+
    myName +:+ LF.

(** *** Component state and the prospect record *)

Record Prospect : Type := mkProspect {
  p_id : Z;
  p_firstName : string;
  p_lastName : string;
  p_company : string;
  p_domain : string;
  p_email : string;
  p_title : string;
  p_status : string
}.

Record State : Type := mkState {
  firstName : string;
  lastName : string;
  company : string;
  domain : string;
  email : string;
  title : string;
  prospects : list Prospect;
  showHelpers : bool;
  aiGuesses : string;
  aiDraft : string
}.

(** [useState] initial values. *)
Definition initial : State :=
  mkState "" "" "" "" "" "" [] true "" "".

(** What a handler does, in order: calls of state setters and of the
    browser. *)
Inductive Call : Type :=
| setFirstName (v : string)
| setLastName (v : string)
| setCompany (v : string)
| setDomain (v : string)
| setEmail (v : string)
| setTitle (v : string)
| setProspects (v : list Prospect)
| setAiGuesses (v : string)
| setAiDraft (v : string)
| alert (msg : string)
| window_open (url target features : string)
| save_blob (filename mime content : string).

Definition apply (st : State) (c : Call) : State :=
  match c with
  | setFirstName v =>
      mkState v (lastName st) (company st) (domain st) (email st) (title st)
        (prospects st) (showHelpers st) (aiGuesses st) (aiDraft st)
  | setLastName v =>
      mkState (firstName st) v (company st) (domain st) (email st) (title st)
        (prospects st) (showHelpers st) (aiGuesses st) (aiDraft st)
  | setCompany v =>
      mkState (firstName st) (lastName st) v (domain st) (email st) (title st)
        (prospects st) (showHelpers st) (aiGuesses st) (aiDraft st)
  | setDomain v =>
      mkState (firstName st) (lastName st) (company st) v (email st) (title st)
        (prospects st) (showHelpers st) (aiGuesses st) (aiDraft st)
  | setEmail v =>
      mkState (firstName st) (lastName st) (company st) (domain st) v (title st)
        (prospects st) (showHelpers st) (aiGuesses st) (aiDraft st)
  | setTitle v =>
      mkState (firstName st) (lastName st) (company st) (domain st) (email st) v
        (prospects st) (showHelpers st) (aiGuesses st) (aiDraft st)
  | setProspects v =>
      mkState (firstName st) (lastName st) (company st) (domain st) (email st)
        (title st) v (showHelpers st) (aiGuesses st) (aiDraft st)
  | setAiGuesses v =>
      mkState (firstName st) (lastName st) (company st) (domain st) (email st)
        (title st) (prospects st) (showHelpers st) v (aiDraft st)
  | setAiDraft v =>
      mkState (firstName st) (lastName st) (company st) (domain st) (email st)
        (title st) (prospects st) (showHelpers st) (aiGuesses st) v
  | alert _ | window_open _ _ _ | save_blob _ _ _ => st
  end.

Definition sets_prospects (c : Call) : bool :=
  match c with
  | setProspects _ => true
  | _ => false
  end.

(** *** Persistence: the two effects on [localStorage] *)

Definition storage_key : string := "prospects".

Definition prospect_json (p : Prospect) : json :=
  JObj [ ("id", JNum (p_id p));
         ("firstName", JStr (p_firstName p));
         ("lastName", JStr (p_lastName p));
         ("company", JStr (p_company p));
         ("domain", JStr (p_domain p));
         ("email", JStr (p_email p));
         ("title", JStr (p_title p));
         ("status", JStr (p_status p)) ].

Definition prospects_json (l : list Prospect) : json :=
  JArr (map prospect_json l).

(** What the load effect leaves in [prospects]: a value, a value outside
    the model, or nothing because [JSON.parse] threw out of the effect. *)
Inductive Loaded : Type :=
| Value (v : json)
| ValueOutsideModel
| Uncaught.

(** The effect run on mount: no handler around [JSON.parse]. *)
Definition loadProspects (store : gmap string string) : Loaded :=
  match getItem storage_key store with
  | Some storedProspects =>
      if truthy storedProspects then
        match parse storedProspects with
        | Parsed v => Value v
        | Unrepresented => ValueOutsideModel
        | SyntaxError => Uncaught
        end
      else Value (prospects_json (prospects initial))
  | None => Value (prospects_json (prospects initial))
  end.

(** The effect run when [prospects] changed. *)
Definition saveProspects (l : list Prospect) (store : gmap string string)
  : gmap string string :=
  setItem storage_key (stringify (prospects_json l)) store.

(** One event: the handler's calls update the state, and the save effect
    runs if [setProspects] was among them. *)
Definition dispatch (calls : list Call) (st : State) (store : gmap string string)
  : State * gmap string string :=
  let st' := fold_left apply calls st in
  (st', if existsb sets_prospects calls
        then saveProspects (prospects st') store
        else store).

(** *** Event handlers *)

Definition linkedin_url (st : State) : string :=
  "https://www.linkedin.com/search/results/people/?keywords=" +:+
  encodeURIComponent (firstName st +:+ " " +:+ lastName st +:+ " " +:+ company st).

Definition google_url (st : State) : string :=
  "https://www.google.com/search?q=" +:+
  encodeURIComponent
    (firstName st +:+ " " +:+ lastName st +:+ " " +:+ company st +:+ " linkedin").

Definition domain_url (st : State) : string :=
  "https://www.google.com/search?q=" +:+
  encodeURIComponent (company st +:+ " website").

Definition handleMagicSearch (service : string) (st : State) : list Call :=
  if String.eqb service "linkedin"
  then [window_open (linkedin_url st) "_blank" "noopener,noreferrer"]
  else if String.eqb service "google"
  then [window_open (google_url st) "_blank" "noopener,noreferrer"]
  else if String.eqb service "domain"
  then [window_open (domain_url st) "_blank" "noopener,noreferrer"]
  else [].

Definition handleGenerateAIGuesses (st : State) : list Call :=
  [setAiGuesses (generateAIGuesses (firstName st) (lastName st) (domain st))].

Definition handleDraftAIEmail (st : State) : list Call :=
  [setAiDraft (draftAIEmail (firstName st) (company st))].

Definition log_alert : string :=
  "Please fill in at least First Name, Company, and Email to log a prospect.".

Definition newProspect (now : Z) (st : State) : Prospect :=
  mkProspect now (firstName st) (lastName st) (company st) (domain st)
    (email st) (title st) "Not Contacted".

(** [now] is the value of [Date.now()]. *)
Definition handleLogProspect (now : Z) (st : State) : list Call :=
  if falsy (email st) || falsy (firstName st) || falsy (company st)
  then [alert log_alert]
  else [ setProspects (newProspect now st :: prospects st);
         setFirstName ""; setLastName ""; setCompany ""; setDomain "";
         setEmail ""; setTitle ""; setAiGuesses ""; setAiDraft "" ].

(** [confirmed] is the answer to [window.confirm]. *)
Definition handleDeleteProspect (confirmed : bool) (id : Z) (st : State)
  : list Call :=
  if confirmed
  then [setProspects (List.filter (fun p => negb (p_id p =? id)) (prospects st))]
  else [].

Definition with_status (newStatus : string) (p : Prospect) : Prospect :=
  mkProspect (p_id p) (p_firstName p) (p_lastName p) (p_company p)
    (p_domain p) (p_email p) (p_title p) newStatus.

Definition handleUpdateStatus (id : Z) (newStatus : string) (st : State)
  : list Call :=
  [setProspects
     (map (fun p => if p_id p =? id then with_status newStatus p else p)
        (prospects st))].

(** The statuses the table's selector offers. *)
Definition statuses : list string :=
  ["Not Contacted"; "Contacted"; "Replied"; "Meeting Set"; "Closed"].

(** *** CSV export *)

Definition csv_headers : string :=
  "firstName,lastName,company,domain,email,title,status" +:+ LF.

Definition csv_row (p : Prospect) : string :=
  DQ +:+ p_firstName p +:+ DQ +:+ "," +:+
  DQ +:+ p_lastName p +:+ DQ +:+ "," +:+
  DQ +:+ p_company p +:+ DQ +:+ "," +:+
  DQ +:+ p_domain p +:+ DQ +:+ "," +:+
  DQ +:+ p_email p +:+ DQ +:+ "," +:+
  DQ +:+ p_title p +:+ DQ +:+ "," +:+
  DQ +:+ p_status p +:+ DQ.

Definition csvContent (l : list Prospect) : string :=
  join LF (map csv_row l).

(** The text put in the downloaded blob. *)
Definition csv_document (l : list Prospect) : string :=
  csv_headers +:+ csvContent l.

Definition exportToCSV (st : State) : list Call :=
  match prospects st with
  | [] => [alert "No prospects to export!"]
  | _ :: _ =>
      [save_blob "prospect_list.csv" "text/csv;charset=utf-IS;,utf-8;"
         (csv_document (prospects st))]
  end.

End ProspectingHub.

(** ** The second page: the "Prospecting Workflow Helper" *)
Module WorkflowHelper.
Import JS.

(** [generateSearchUrl]: [None] is [null]. *)
Definition generateSearchUrl
  (service firstName lastName company companyDomain : string) : option string :=
  let fullName := trim (firstName +:+ " " +:+ lastName) in
  if String.eqb service "google_company" then
    Some ("https://www.google.com/search?q=" +:+
          encodeURIComponent (company +:+ " official website"))
  else if String.eqb service "linkedin" then
    Some ("https://www.linkedin.com/search/results/people/?keywords=" +:+
          encodeURIComponent (fullName +:+ " " +:+ company))
  else if String.eqb service "experte" then
    if falsy companyDomain then None
    else
      Some ("https://www.experte.com/email-finder?name=" +:+
            encodeURIComponent fullName +:+ "&domain=" +:+
            encodeURIComponent companyDomain)
  else None.

Record Prospect : Type := mkProspect {
  p_id : string;
  p_firstName : string;
  p_lastName : string;
  p_company : string;
  p_companyDomain : string;
  p_email : string;
  p_dateAdded : string
}.

Record State : Type := mkState {
  firstName : string;
  lastName : string;
  company : string;
  companyDomain : string;
  verifiedEmail : string;
  prospects : list Prospect;
  error : option string
}.

Inductive Call : Type :=
| setFirstName (v : string)
| setLastName (v : string)
| setCompany (v : string)
| setCompanyDomain (v : string)
| setVerifiedEmail (v : string)
| setProspects (update : list Prospect -> list Prospect)
| setError (v : option string)
| alert (msg : string)
| window_open (url target : string)
| link_click (href download : string).

Definition apply (st : State) (c : Call) : State :=
  match c with
  | setFirstName v =>
      mkState v (lastName st) (company st) (companyDomain st)
        (verifiedEmail st) (prospects st) (error st)
  | setLastName v =>
      mkState (firstName st) v (company st) (companyDomain st)
        (verifiedEmail st) (prospects st) (error st)
  | setCompany v =>
      mkState (firstName st) (lastName st) v (companyDomain st)
        (verifiedEmail st) (prospects st) (error st)
  | setCompanyDomain v =>
      mkState (firstName st) (lastName st) (company st) v
        (verifiedEmail st) (prospects st) (error st)
  | setVerifiedEmail v =>
      mkState (firstName st) (lastName st) (company st) (companyDomain st)
        v (prospects st) (error st)
  | setProspects update =>
      mkState (firstName st) (lastName st) (company st) (companyDomain st)
        (verifiedEmail st) (update (prospects st)) (error st)
  | setError v =>
      mkState (firstName st) (lastName st) (company st) (companyDomain st)
        (verifiedEmail st) (prospects st) v
  | alert _ | window_open _ _ | link_click _ _ => st
  end.

Definition sets_prospects (c : Call) : bool :=
  match c with
  | setProspects _ => true
  | _ => false
  end.

(** *** Persistence *)

Definition storage_key : string := "workflowProspects".

Definition prospect_json (p : Prospect) : json :=
  JObj [ ("id", JStr (p_id p));
         ("firstName", JStr (p_firstName p));
         ("lastName", JStr (p_lastName p));
         ("company", JStr (p_company p));
         ("companyDomain", JStr (p_companyDomain p));
         ("email", JStr (p_email p));
         ("dateAdded", JStr (p_dateAdded p)) ].

Definition prospects_json (l : list Prospect) : json :=
  JArr (map prospect_json l).

(** What the [useState] initializer returns. *)
Inductive Loaded : Type :=
| Value (v : json)
| ValueOutsideModel.

(** The initializer of [prospects]: [JSON.parse] inside [try]/[catch]. *)
Definition loadProspects (store : gmap string string) : Loaded :=
  match getItem storage_key store with
  | Some saved =>
      if truthy saved then
        match parse saved with
        | Parsed v => Value v
        | Unrepresented => ValueOutsideModel
        | SyntaxError => Value (JArr [])
        end
      else Value (JArr [])
  | None => Value (JArr [])
  end.

Definition saveProspects (l : list Prospect) (store : gmap string string)
  : gmap string string :=
  setItem storage_key (stringify (prospects_json l)) store.

Definition dispatch (calls : list Call) (st : State) (store : gmap string string)
  : State * gmap string string :=
  let st' := fold_left apply calls st in
  (st', if existsb sets_prospects calls
        then saveProspects (prospects st') store
        else store).

(** *** Event handlers *)

Definition domain_error : string :=
  "You must enter a 'Company Domain' to use that search!".

Definition handleSearch (service : string) (st : State) : list Call :=
  match generateSearchUrl service (firstName st) (lastName st) (company st)
          (companyDomain st) with
  | Some url =>
      if truthy url then [window_open url "_blank"]
      else [setError (Some domain_error)]
  | None => [setError (Some domain_error)]
  end.

Definition log_error : string :=
  "First Name, Company, and Verified Email are required to log a prospect.".

(** [now] is the value of [Date.now()], [iso] the value of
    [new Date().toISOString()]. *)
Definition newProspect (now : Z) (iso : string) (st : State) : Prospect :=
  mkProspect (number_to_string now) (firstName st) (lastName st) (company st)
    (companyDomain st) (verifiedEmail st)
    (split_first "T" iso).

Definition handleLogProspect (now : Z) (iso : string) (st : State) : list Call :=
  setError None ::
  if falsy (firstName st) || falsy (company st) || falsy (verifiedEmail st)
  then [setError (Some log_error)]
  else [ setProspects (fun prev => newProspect now iso st :: prev);
         setFirstName ""; setLastName ""; setCompany "";
         setCompanyDomain ""; setVerifiedEmail "" ].

(** *** CSV export *)

Definition csv_headers : string :=
  "firstName,lastName,company,companyDomain,verifiedEmail,dateAdded".

Definition csv_row (p : Prospect) : string :=
  join ","
    [ DQ +:+ p_firstName p +:+ DQ;
      DQ +:+ p_lastName p +:+ DQ;
      DQ +:+ p_company p +:+ DQ;
      DQ +:+ p_companyDomain p +:+ DQ;
      DQ +:+ p_email p +:+ DQ;
      DQ +:+ p_dateAdded p +:+ DQ ].

Definition csv_rows (l : list Prospect) : string :=
  join LF (map csv_row l).

(** The document after the data-URI prefix. *)
Definition csv_document (l : list Prospect) : string :=
  csv_headers +:+ LF +:+ csv_rows l.

Definition csvContent (l : list Prospect) : string :=
  "data:text/csv;charset=utf-8," +:+ csv_document l.

Definition exportToCSV (l : list Prospect) : list Call :=
  match l with
  | [] => [alert "Your prospect list is empty!"]
  | _ :: _ => [link_click (encodeURI (csvContent l)) "prospect_list.csv"]
  end.

End WorkflowHelper.


(** ** Sample states and auxiliary notions *)

Import JS.

Module P := ProspectingHub.
Module W := WorkflowHelper.

Definition jane_hub : P.State :=
  P.mkState "Jane" "Doe" "Acme" "acme.com" "jane@acme.com" "CTO"
    [P.mkProspect 1 "Al" "Bo" "Cy" "cy.io" "al@cy.io" "" "Replied"]
    true "" "".

Definition jane_flow : W.State :=
  W.mkState "Jane" "Doe" "Acme" "acme.com" "jane@acme.com"
    [W.mkProspect "1" "Al" "Bo" "Cy" "cy.io" "al@cy.io" "2024-01-01"]
    None.

Definition no_email_hub : P.State :=
  P.mkState "Jane" "Doe" "Acme" "acme.com" "" "CTO"
    [P.mkProspect 1 "Al" "Bo" "Cy" "cy.io" "al@cy.io" "" "Replied"]
    true "" "".

Definition no_company_flow : W.State :=
  W.mkState "Jane" "Doe" "" "acme.com" "jane@acme.com"
    [W.mkProspect "1" "Al" "Bo" "Cy" "cy.io" "al@cy.io" "2024-01-01"]
    None.

Definition no_domain_flow : W.State :=
  W.mkState "Jane" "Doe" "Acme" "" "" [] None.

(** A record none of whose exported fields holds a line feed. *)
Definition hub_single_line (p : P.Prospect) : bool :=
  negb (includes_unit (ascii_of_nat 10) (P.p_firstName p))
  && negb (includes_unit (ascii_of_nat 10) (P.p_lastName p))
  && negb (includes_unit (ascii_of_nat 10) (P.p_company p))
  && negb (includes_unit (ascii_of_nat 10) (P.p_domain p))
  && negb (includes_unit (ascii_of_nat 10) (P.p_email p))
  && negb (includes_unit (ascii_of_nat 10) (P.p_title p))
  && negb (includes_unit (ascii_of_nat 10) (P.p_status p)).

Definition flow_single_line (p : W.Prospect) : bool :=
  negb (includes_unit (ascii_of_nat 10) (W.p_firstName p))
  && negb (includes_unit (ascii_of_nat 10) (W.p_lastName p))
  && negb (includes_unit (ascii_of_nat 10) (W.p_company p))
  && negb (includes_unit (ascii_of_nat 10) (W.p_companyDomain p))
  && negb (includes_unit (ascii_of_nat 10) (W.p_email p))
  && negb (includes_unit (ascii_of_nat 10) (W.p_dateAdded p)).

(** A record whose first name holds a line feed, as a store edited by hand
    can hold. *)
Definition two_line_prospect : P.Prospect :=
  P.mkProspect 1 ("Ann" +:+ LF +:+ "Lee") "Bo" "Cy" "cy.io" "al@cy.io" "" "Replied".

(** ** The events of the "AI Prospecting Hub" page

    What the rendered page lets the user do: each input's [onChange], each
    button's [onClick], the form's [onSubmit], and the status selector and
    delete button of a table row. An event carries what the browser hands
    to the handler: the text typed, the clock value, the answer to the
    confirmation. The browser's own check of the required email field can
    only withhold a [Submit]; it adds no event. *)
Module HubEvents.
Import ProspectingHub.

(** [handleCopyText]: what it does with the clipboard. [succeeds] tells
    which way the promise of [writeText] settles. *)
Inductive CopyCall : Type :=
| clipboard_writeText (text : string)
| copy_alert (msg : string).

Definition handleCopyText (succeeds : bool) (text : string) : list CopyCall :=
  if falsy text then []
  else [ clipboard_writeText text;
         copy_alert (if succeeds then "Copied to clipboard!" else "Failed to copy.") ].

Inductive Event : Type :=
| ChangeFirstName (v : string)
| ChangeLastName (v : string)
| ChangeCompany (v : string)
| ChangeDomain (v : string)
| ChangeTitle (v : string)
| ChangeEmail (v : string)
| ChangeAiDraft (v : string)
| ClickMagicSearch (service : string)
| ClickGenerate
| ClickDraft
| ClickCopyGuesses (succeeds : bool)
| ClickCopyDraft (succeeds : bool)
| Submit (now : Z)
| ClickExport
| ToggleHelpers
| SelectStatus (id : Z) (newStatus : string)
| ClickDelete (confirmed : bool) (id : Z).

(** The setter and browser calls an event leads to. *)
Definition calls (e : Event) (st : State) : list Call :=
  match e with
  | ChangeFirstName v => [setFirstName v]
  | ChangeLastName v => [setLastName v]
  | ChangeCompany v => [setCompany v]
  | ChangeDomain v => [setDomain v]
  | ChangeTitle v => [setTitle v]
  | ChangeEmail v => [setEmail v]
  | ChangeAiDraft v => [setAiDraft v]
  | ClickMagicSearch service => handleMagicSearch service st
  | ClickGenerate => handleGenerateAIGuesses st
  | ClickDraft => handleDraftAIEmail st
  | Submit now => handleLogProspect now st
  | ClickExport => exportToCSV st
  | SelectStatus id newStatus => handleUpdateStatus id newStatus st
  | ClickDelete confirmed id => handleDeleteProspect confirmed id st
  | ClickCopyGuesses _ | ClickCopyDraft _ | ToggleHelpers => []
  end.

(** What a copy button hands to [handleCopyText]. *)
Definition copies (e : Event) (st : State) : list CopyCall :=
  match e with
  | ClickCopyGuesses succeeds => handleCopyText succeeds (aiGuesses st)
  | ClickCopyDraft succeeds => handleCopyText succeeds (aiDraft st)
  | _ => []
  end.

(** [setShowHelpers(!showHelpers)]. *)
Definition toggleHelpers (st : State) : State :=
  mkState (firstName st) (lastName st) (company st) (domain st) (email st)
    (title st) (prospects st) (negb (showHelpers st)) (aiGuesses st) (aiDraft st).

(** One event on the page and its store. *)
Definition step (e : Event) (page : State * gmap string string)
  : State * gmap string string :=
  match e with
  | ToggleHelpers => (toggleHelpers (fst page), snd page)
  | _ => dispatch (calls e (fst page)) (fst page) (snd page)
  end.

Fixpoint run (events : list Event) (page : State * gmap string string)
  : State * gmap string string :=
  match events with
  | [] => page
  | e :: rest => run rest (step e page)
  end.

Definition ids (st : State) : list Z := map p_id (prospects st).

(** The events the rendered page offers: the three search buttons, and for
    each row of the table its selector, with the five statuses, and its
    delete button. *)
Definition offered (e : Event) (st : State) : bool :=
  match e with
  | ClickMagicSearch service =>
      existsb (String.eqb service) ["linkedin"; "google"; "domain"]
  | SelectStatus id newStatus =>
      existsb (Z.eqb id) (ids st) && existsb (String.eqb newStatus) statuses
  | ClickDelete _ id => existsb (Z.eqb id) (ids st)
  | _ => true
  end.

Fixpoint offered_all (events : list Event) (page : State * gmap string string)
  : bool :=
  match events with
  | [] => true
  | e :: rest => offered e (fst page) && offered_all rest (step e page)
  end.

(** Every [Submit] comes with a clock value that no record carries yet. *)
Fixpoint fresh_clock (events : list Event) (page : State * gmap string string)
  : bool :=
  match events with
  | [] => true
  | e :: rest =>
      match e with
      | Submit now => negb (existsb (Z.eqb now) (ids (fst page)))
      | _ => true
      end
      && fresh_clock rest (step e page)
  end.

(** The store holds the text of the list that is in memory. *)
Definition synced (page : State * gmap string string) : Prop :=
  getItem storage_key (snd page)
    = Some (stringify (prospects_json (prospects (fst page)))).

(** The fields a logged record must have. *)
Definition complete (p : Prospect) : Prop :=
  p_firstName p <> "" /\ p_company p <> "" /\ p_email p <> "".

(** An event that replaces the list: an accepted submit, a status
    selection, a confirmed deletion. *)
Definition replaces_list (e : Event) (st : State) : bool :=
  match e with
  | Submit _ => negb (falsy (email st) || falsy (firstName st) || falsy (company st))
  | SelectStatus _ _ => true
  | ClickDelete confirmed _ => confirmed
  | _ => false
  end.

End HubEvents.

(** ** The events of the "Prospecting Workflow Helper" page *)
Module FlowEvents.
Import WorkflowHelper.

Inductive Event : Type :=
| ChangeFirstName (v : string)
| ChangeLastName (v : string)
| ChangeCompany (v : string)
| ChangeCompanyDomain (v : string)
| ChangeVerifiedEmail (v : string)
| ClickSearch (service : string)
| Submit (now : Z) (iso : string)
| ClickExport.

Definition calls (e : Event) (st : State) : list Call :=
  match e with
  | ChangeFirstName v => [setFirstName v]
  | ChangeLastName v => [setLastName v]
  | ChangeCompany v => [setCompany v]
  | ChangeCompanyDomain v => [setCompanyDomain v]
  | ChangeVerifiedEmail v => [setVerifiedEmail v]
  | ClickSearch service => handleSearch service st
  | Submit now iso => handleLogProspect now iso st
  | ClickExport => exportToCSV (prospects st)
  end.

Definition step (e : Event) (page : State * gmap string string)
  : State * gmap string string :=
  dispatch (calls e (fst page)) (fst page) (snd page).

Fixpoint run (events : list Event) (page : State * gmap string string)
  : State * gmap string string :=
  match events with
  | [] => page
  | e :: rest => run rest (step e page)
  end.

(** The events the rendered page offers: the two search buttons that are
    always enabled, and the email-finder button, which is disabled while
    the domain is empty. *)
Definition offered (e : Event) (st : State) : bool :=
  match e with
  | ClickSearch service =>
      String.eqb service "google_company" || String.eqb service "linkedin"
      || (String.eqb service "experte" && truthy (companyDomain st))
  | _ => true
  end.

Fixpoint offered_all (events : list Event) (page : State * gmap string string)
  : bool :=
  match events with
  | [] => true
  | e :: rest => offered e (fst page) && offered_all rest (step e page)
  end.

Definition synced (page : State * gmap string string) : Prop :=
  getItem storage_key (snd page)
    = Some (stringify (prospects_json (prospects (fst page)))).

Definition complete (p : Prospect) : Prop :=
  p_firstName p <> "" /\ p_company p <> "" /\ p_email p <> "".

End FlowEvents.

(** The characters of an address: those [encodeURI] keeps, and the percent
    sign of an escape. *)
Definition uri_char (c : ascii) : bool :=
  uri_unescaped c || uri_reserved_or_hash c || Ascii.eqb c "%".

Module HE := HubEvents.
Module FE := FlowEvents.

(** A record none of whose exported fields holds a double quote. *)
Definition hub_quote_free (p : P.Prospect) : bool :=
  negb (includes_unit (ascii_of_nat 34) (P.p_firstName p))
  && negb (includes_unit (ascii_of_nat 34) (P.p_lastName p))
  && negb (includes_unit (ascii_of_nat 34) (P.p_company p))
  && negb (includes_unit (ascii_of_nat 34) (P.p_domain p))
  && negb (includes_unit (ascii_of_nat 34) (P.p_email p))
  && negb (includes_unit (ascii_of_nat 34) (P.p_title p))
  && negb (includes_unit (ascii_of_nat 34) (P.p_status p)).

Definition flow_quote_free (p : W.Prospect) : bool :=
  negb (includes_unit (ascii_of_nat 34) (W.p_firstName p))
  && negb (includes_unit (ascii_of_nat 34) (W.p_lastName p))
  && negb (includes_unit (ascii_of_nat 34) (W.p_company p))
  && negb (includes_unit (ascii_of_nat 34) (W.p_companyDomain p))
  && negb (includes_unit (ascii_of_nat 34) (W.p_email p))
  && negb (includes_unit (ascii_of_nat 34) (W.p_dateAdded p)).

(** A page with two logged prospects, for the examples below. *)
Definition two_prospect_hub : P.State :=
  P.mkState "Jane" "Doe" "Acme" "acme.com" "jane@acme.com" "CTO"
    [ P.mkProspect 2 "Di" "Eo" "Fy" "fy.io" "di@fy.io" "VP" "Contacted";
      P.mkProspect 1 "Al" "Bo" "Cy" "cy.io" "al@cy.io" "" "Replied" ]
    true "" "".

(** The list an event leaves in memory, read off the handlers. *)
Definition hub_next_list (e : HE.Event) (st : P.State) : list P.Prospect :=
  match e with
  | HE.Submit now =>
      if HE.replaces_list e st then P.newProspect now st :: P.prospects st
      else P.prospects st
  | HE.SelectStatus id newStatus =>
      map (fun p => if P.p_id p =? id then P.with_status newStatus p else p)
        (P.prospects st)
  | HE.ClickDelete true id =>
      List.filter (fun p => negb (P.p_id p =? id)) (P.prospects st)
  | _ => P.prospects st
  end.

Definition flow_accepts (st : W.State) : bool :=
  negb (falsy (W.firstName st) || falsy (W.company st) || falsy (W.verifiedEmail st)).

(** Two records that differ only in where a double quote and a comma sit
    in their first two fields. *)
Definition quote_in_first : P.Prospect :=
  P.mkProspect 1 ("a" +:+ DQ +:+ "," +:+ DQ +:+ "b") "c" "Cy" "cy.io" "al@cy.io" "" "Replied".

Definition quote_in_last : P.Prospect :=
  P.mkProspect 1 "a" ("b" +:+ DQ +:+ "," +:+ DQ +:+ "c") "Cy" "cy.io" "al@cy.io" "" "Replied".

(** * Properties *)

#[local] Arguments String.append !s1 s2 : simpl nomatch.

(** ** The runtime model on sample inputs *)
Section RuntimeExamples.

Example toLowerCase_sample : toLowerCase "Jane O'Neil-3" = "jane o'neil-3".
Proof. reflexivity. Qed.

Example trim_sample : trim "  Jane Doe " = "Jane Doe".
Proof. reflexivity. Qed.

Example trim_only_space : trim " " = "".
Proof. reflexivity. Qed.

Example encodeURIComponent_sample :
  encodeURIComponent "R&D dept/x=1?" = "R%26D%20dept%2Fx%3D1%3F".
Proof. reflexivity. Qed.

Example encodeURI_sample :
  encodeURI ("a,b" +:+ LF +:+ DQ +:+ "c" +:+ DQ) = "a,b%0A%22c%22".
Proof. reflexivity. Qed.

Example stringify_sample :
  stringify (JArr [JObj [("id", JNum 7); ("n", JStr ("a" +:+ DQ +:+ "b" +:+ LF))]; JNull])
    = "[{" +:+ DQ +:+ "id" +:+ DQ +:+ ":7," +:+ DQ +:+ "n" +:+ DQ +:+ ":"
      +:+ DQ +:+ "a\" +:+ DQ +:+ "b\n" +:+ DQ +:+ "},null]".
Proof. reflexivity. Qed.

Example parse_spaced : parse " [ 1 , true , null ] " = Parsed (JArr [JNum 1; JBool true; JNull]).
Proof. reflexivity. Qed.

Example parse_nested : parse "[[[[]]]]" = Parsed (JArr [JArr [JArr [JArr []]]]).
Proof. reflexivity. Qed.

Example parse_escapes :
  parse (DQ +:+ "a\u0041\n\/" +:+ DQ) = Parsed (JStr ("aA" +:+ LF +:+ "/")).
Proof. reflexivity. Qed.

Example parse_fraction : parse "[1.5e3]" = Unrepresented.
Proof. reflexivity. Qed.

Example parse_wide_escape : parse (DQ +:+ "\u0141" +:+ DQ) = Unrepresented.
Proof. reflexivity. Qed.

Example parse_repeated_key :
  parse ("{" +:+ DQ +:+ "a" +:+ DQ +:+ ":1," +:+ DQ +:+ "a" +:+ DQ +:+ ":2}")
    = Unrepresented.
Proof. reflexivity. Qed.

Example parse_empty_text : parse "" = SyntaxError.
Proof. reflexivity. Qed.

Example parse_leading_zero : parse "[01]" = SyntaxError.
Proof. reflexivity. Qed.

Example parse_trailing_comma : parse "[1,]" = SyntaxError.
Proof. reflexivity. Qed.

Example parse_trailing_text : parse "null x" = SyntaxError.
Proof. reflexivity. Qed.

Example parse_raw_line_feed : parse (DQ +:+ "a" +:+ LF +:+ "b" +:+ DQ) = SyntaxError.
Proof. reflexivity. Qed.

Example parse_bare_word : parse "prospects" = SyntaxError.
Proof. reflexivity. Qed.

End RuntimeExamples.

(** ** Strings *)
Section StringFacts.

Lemma append_assoc (a b c : string) : (a +:+ b) +:+ c = a +:+ (b +:+ c).
Proof. induction a as [|x a IH]; simpl; [reflexivity | now rewrite IH]. Qed.

Lemma append_empty_r (a : string) : a +:+ "" = a.
Proof. induction a as [|x a IH]; simpl; [reflexivity | now rewrite IH]. Qed.

Lemma length_append (a b : string) :
  String.length (a +:+ b) = (String.length a + String.length b)%nat.
Proof. induction a as [|x a IH]; simpl; [reflexivity | now rewrite IH]. Qed.

Lemma falsy_false (s : string) : s <> "" -> falsy s = false.
Proof. destruct s; [congruence | reflexivity]. Qed.

Lemma falsy_true (s : string) : s = "" -> falsy s = true.
Proof. intros ->. reflexivity. Qed.

Lemma falsy_three (a b c : string) :
  a <> "" -> b <> "" -> c <> "" -> falsy a || falsy b || falsy c = false.
Proof. intros Ha Hb Hc. now rewrite !falsy_false. Qed.

Lemma falsy_one_of_three (a b c : string) :
  a = "" \/ b = "" \/ c = "" -> falsy a || falsy b || falsy c = true.
Proof.
  intros [-> | [-> | ->]]; simpl.
  - reflexivity.
  - now rewrite orb_true_r.
  - now rewrite orb_true_r.
Qed.

Lemma toLowerCase_nonempty (s : string) : s <> "" -> toLowerCase s <> "".
Proof. destruct s; [congruence | discriminate]. Qed.

Lemma includes_unit_append (c : ascii) (a b : string) :
  includes_unit c (a +:+ b) = includes_unit c a || includes_unit c b.
Proof.
  induction a as [|x a IH]; simpl; [reflexivity|].
  rewrite IH. now rewrite orb_assoc.
Qed.

(** Splitting at a separator that the first piece does not hold. *)
Lemma split_on_free (c : ascii) (a : string) :
  includes_unit c a = false -> split_on c a = [a].
Proof.
  induction a as [|x a IH]; simpl; [reflexivity|].
  intros H. apply orb_false_iff in H as [Hx Ha].
  rewrite Hx, (IH Ha). reflexivity.
Qed.

Lemma split_on_append (c : ascii) (a b : string) :
  includes_unit c a = false ->
  split_on c (a +:+ String c b) = a :: split_on c b.
Proof.
  induction a as [|x a IH]; simpl.
  - intros _. now rewrite Ascii.eqb_refl.
  - intros H. apply orb_false_iff in H as [Hx Ha].
    rewrite Hx, (IH Ha). reflexivity.
Qed.

(** Joining pieces that hold no line feed and splitting again gives the
    pieces back. *)
Lemma lines_join (x : string) (rest : list string) :
  Forall (fun s => includes_unit (ascii_of_nat 10) s = false) (x :: rest) ->
  lines (join LF (x :: rest)) = x :: rest.
Proof.
  revert x. induction rest as [|y rest IH]; intros x H.
  - apply split_on_free. now inversion H.
  - inversion H as [|? ? Hx Hrest]; subst.
    change (join LF (x :: y :: rest)) with (x +:+ LF +:+ join LF (y :: rest)).
    unfold lines, LF. simpl append.
    rewrite split_on_append by exact Hx.
    f_equal. apply IH. exact Hrest.
Qed.

End StringFacts.

(** ** Derived text: email guesses and the draft email *)
Section DerivedText.

Import ProspectingHub.

(** C5: with an empty first name, last name or domain, [generateAIGuesses]
    returns the fixed prompt sentence and nothing else: no pattern is built. *)
Theorem generateAIGuesses_empty_argument (f l d : string) :
  f = "" \/ l = "" \/ d = "" ->
  generateAIGuesses f l d = guesses_prompt.
Proof.
  unfold generateAIGuesses.
  intros [-> | [-> | ->]]; simpl.
  - reflexivity.
  - destruct (falsy f); reflexivity.
  - destruct (falsy f), (falsy l); reflexivity.
Qed.

Lemma generateAIGuesses_empty_argument_witness :
  generateAIGuesses "Jane" "" "acme.com" = guesses_prompt.
Proof.
  apply (generateAIGuesses_empty_argument "Jane" "" "acme.com").
  right. left. reflexivity.
Defined.

Lemma lower_unit_line_feed (c : ascii) :
  Ascii.eqb (lower_unit c) (ascii_of_nat 10) = Ascii.eqb c (ascii_of_nat 10).
Proof. destruct c as [[] [] [] [] [] [] [] []]; reflexivity. Qed.

Lemma toLowerCase_single_line (s : string) :
  includes_unit (ascii_of_nat 10) (toLowerCase s)
    = includes_unit (ascii_of_nat 10) s.
Proof.
  induction s as [|c s IH]; [reflexivity|].
  cbn [toLowerCase includes_unit]. now rewrite lower_unit_line_feed, IH.
Qed.

(** No candidate holds a line feed when the three inputs hold none. *)
Lemma patterns_single_line (f l d : string) :
  f <> "" -> l <> "" ->
  includes_unit (ascii_of_nat 10) f = false ->
  includes_unit (ascii_of_nat 10) l = false ->
  includes_unit (ascii_of_nat 10) d = false ->
  Forall (fun s => includes_unit (ascii_of_nat 10) s = false) (patterns f l d).
Proof.
  intros Hf Hl Ff Fl Fd.
  pose proof (toLowerCase_single_line f) as Lf. rewrite Ff in Lf.
  pose proof (toLowerCase_single_line l) as Ll. rewrite Fl in Ll.
  destruct f as [|c1 f']; [congruence|].
  destruct l as [|c2 l']; [congruence|].
  unfold patterns.
  cbn [toLowerCase index0 or_empty interpolate falsy] in *.
  cbn [includes_unit] in Lf, Ll.
  apply orb_false_iff in Lf as [Lc1 Lf'].
  apply orb_false_iff in Ll as [Lc2 Ll'].
  repeat constructor;
    rewrite ?includes_unit_append; cbn [includes_unit append];
    rewrite ?includes_unit_append; cbn [includes_unit append];
    rewrite ?Lc1, ?Lc2, ?Lf', ?Ll', ?Fd; reflexivity.
Qed.

(** C4: for non-empty first name, last name and domain the result is the
    ten candidates, in the fixed order, joined by line feeds; each is made
    of the lowercased names [fn], [ln] and their first units [fi], [li],
    followed by [@domain]. When the inputs hold no line feed, the lines of
    the result are exactly the ten candidates. For Jane Doe at acme.com
    they are listed, with jane.doe@, jdoe@, janed@, jane@ and doe@acme.com
    first. *)
Theorem generateAIGuesses_ten_patterns :
  (forall f l d : string,
      f <> "" -> l <> "" -> d <> "" ->
      exists fi li : ascii,
        let fn := toLowerCase f in
        let ln := toLowerCase l in
        index0 fn = Some (String fi "") /\
        index0 ln = Some (String li "") /\
        patterns f l d =
          [ fn +:+ "." +:+ ln +:+ "@" +:+ d;
            String fi "" +:+ ln +:+ "@" +:+ d;
            fn +:+ String li "" +:+ "@" +:+ d;
            fn +:+ "@" +:+ d;
            ln +:+ "@" +:+ d;
            fn +:+ "_" +:+ ln +:+ "@" +:+ d;
            String fi "" +:+ "." +:+ ln +:+ "@" +:+ d;
            fn +:+ ln +:+ "@" +:+ d;
            ln +:+ "." +:+ fn +:+ "@" +:+ d;
            String fi "" +:+ String li "" +:+ "@" +:+ d ] /\
        length (patterns f l d) = 10%nat /\
        generateAIGuesses f l d = join LF (patterns f l d))
  /\
  (forall f l d : string,
      f <> "" -> l <> "" -> d <> "" ->
      includes_unit (ascii_of_nat 10) f = false ->
      includes_unit (ascii_of_nat 10) l = false ->
      includes_unit (ascii_of_nat 10) d = false ->
      lines (generateAIGuesses f l d) = patterns f l d)
  /\ patterns "Jane" "Doe" "acme.com" =
       [ "jane.doe@acme.com"; "jdoe@acme.com"; "janed@acme.com";
         "jane@acme.com"; "doe@acme.com"; "jane_doe@acme.com";
         "j.doe@acme.com"; "janedoe@acme.com"; "doe.jane@acme.com";
         "jd@acme.com" ]
  /\ lines (generateAIGuesses "Jane" "Doe" "acme.com") =
       patterns "Jane" "Doe" "acme.com".
Proof.
  split; [| split; [| split; reflexivity]].
  - intros f l d Hf Hl Hd.
    destruct f as [|c1 f']; [congruence|].
    destruct l as [|c2 l']; [congruence|].
    destruct d as [|c3 d']; [congruence|].
    exists (lower_unit c1), (lower_unit c2).
    repeat split.
  - intros f l d Hf Hl Hd Ff Fl Fd.
    pose proof (patterns_single_line f l d Hf Hl Ff Fl Fd) as Hall.
    unfold generateAIGuesses. rewrite (falsy_three f l d Hf Hl Hd).
    unfold patterns in *. now apply lines_join.
Qed.

Lemma generateAIGuesses_ten_patterns_witness :
  exists fi li : ascii,
    index0 (toLowerCase "Ada") = Some (String fi "") /\
    index0 (toLowerCase "Lovelace") = Some (String li "") /\
    patterns "Ada" "Lovelace" "analytical.org" =
      [ toLowerCase "Ada" +:+ "." +:+ toLowerCase "Lovelace" +:+ "@" +:+ "analytical.org";
        String fi "" +:+ toLowerCase "Lovelace" +:+ "@" +:+ "analytical.org";
        toLowerCase "Ada" +:+ String li "" +:+ "@" +:+ "analytical.org";
        toLowerCase "Ada" +:+ "@" +:+ "analytical.org";
        toLowerCase "Lovelace" +:+ "@" +:+ "analytical.org";
        toLowerCase "Ada" +:+ "_" +:+ toLowerCase "Lovelace" +:+ "@" +:+ "analytical.org";
        String fi "" +:+ "." +:+ toLowerCase "Lovelace" +:+ "@" +:+ "analytical.org";
        toLowerCase "Ada" +:+ toLowerCase "Lovelace" +:+ "@" +:+ "analytical.org";
        toLowerCase "Lovelace" +:+ "." +:+ toLowerCase "Ada" +:+ "@" +:+ "analytical.org";
        String fi "" +:+ String li "" +:+ "@" +:+ "analytical.org" ] /\
    length (patterns "Ada" "Lovelace" "analytical.org") = 10%nat /\
    generateAIGuesses "Ada" "Lovelace" "analytical.org" =
      join LF (patterns "Ada" "Lovelace" "analytical.org").
Proof.
  apply (proj1 generateAIGuesses_ten_patterns "Ada" "Lovelace" "analytical.org");
    discriminate.
Defined.

(** C10: [draftAIEmail] tests the first name only. With a non-empty first
    name and an empty company it returns the whole template, not the prompt,
    with the empty company in the subject and the body: the subject line
    ends right after "re: ". *)
Theorem draftAIEmail_empty_company (f : string) :
  f <> "" ->
  draftAIEmail f "" <> draft_prompt /\
  draftAIEmail f "" =
    "Subject: Quick question re: " +:+ LF +:+ LF +:+
    "Hi " +:+ f +:+ "," +:+ LF +:+ LF +:+
    "I was on 's website and noticed you're the [Prospect's Title]." +:+ LF +:+ LF +:+
    "I specialize in [Your Service, e.g., 'modern web design'] and [Your Value Prop, e.g., 'help companies increase user engagement']. I had a quick idea on how you could [Specific Idea for Them]." +:+ LF +:+ LF +:+
    "Would you be open to a 10-minute chat next week if you're interested?" +:+ LF +:+ LF +:+
    "Best," +:+ LF +:+ LF +:+
    "[Your Name]" +:+ LF /\
  head (lines (draftAIEmail f "")) = Some "Subject: Quick question re: ".
Proof.
  intros Hf. unfold draftAIEmail. rewrite (falsy_false f Hf).
  split; [| split].
  - discriminate.
  - reflexivity.
  - reflexivity.
Qed.

Lemma draftAIEmail_empty_company_witness :
  draftAIEmail "Jane" "" <> draft_prompt /\
  draftAIEmail "Jane" "" =
    "Subject: Quick question re: " +:+ LF +:+ LF +:+
    "Hi " +:+ "Jane" +:+ "," +:+ LF +:+ LF +:+
    "I was on 's website and noticed you're the [Prospect's Title]." +:+ LF +:+ LF +:+
    "I specialize in [Your Service, e.g., 'modern web design'] and [Your Value Prop, e.g., 'help companies increase user engagement']. I had a quick idea on how you could [Specific Idea for Them]." +:+ LF +:+ LF +:+
    "Would you be open to a 10-minute chat next week if you're interested?" +:+ LF +:+ LF +:+
    "Best," +:+ LF +:+ LF +:+
    "[Your Name]" +:+ LF /\
  head (lines (draftAIEmail "Jane" "")) = Some "Subject: Quick question re: ".
Proof. apply (draftAIEmail_empty_company "Jane"). discriminate. Defined.

End DerivedText.

(** ** The prospect list: logging, deleting, updating *)
Section ProspectList.

(** C1: with first name, company and email all non-empty, logging a
    prospect adds exactly one record; the new record is at index 0 and
    every record that was in the list is still there, one place further,
    so in the same relative order. The save effect then writes the new
    list. This holds on both pages. *)
Theorem handleLogProspect_prepends :
  (forall (now : Z) (st : P.State) (store : gmap string string),
      P.firstName st <> "" -> P.company st <> "" -> P.email st <> "" ->
      let st' := fst (P.dispatch (P.handleLogProspect now st) st store) in
      let store' := snd (P.dispatch (P.handleLogProspect now st) st store) in
      P.prospects st' = P.newProspect now st :: P.prospects st /\
      length (P.prospects st') = S (length (P.prospects st)) /\
      P.prospects st' !! 0%nat = Some (P.newProspect now st) /\
      (forall (i : nat) (p : P.Prospect),
          P.prospects st !! i = Some p -> P.prospects st' !! S i = Some p) /\
      store' = P.saveProspects (P.prospects st') store)
  /\
  (forall (now : Z) (iso : string) (st : W.State) (store : gmap string string),
      W.firstName st <> "" -> W.company st <> "" -> W.verifiedEmail st <> "" ->
      let st' := fst (W.dispatch (W.handleLogProspect now iso st) st store) in
      let store' := snd (W.dispatch (W.handleLogProspect now iso st) st store) in
      W.prospects st' = W.newProspect now iso st :: W.prospects st /\
      length (W.prospects st') = S (length (W.prospects st)) /\
      W.prospects st' !! 0%nat = Some (W.newProspect now iso st) /\
      (forall (i : nat) (p : W.Prospect),
          W.prospects st !! i = Some p -> W.prospects st' !! S i = Some p) /\
      store' = W.saveProspects (W.prospects st') store).
Proof.
  split.
  - intros now st store Hf Hc He.
    unfold P.dispatch, P.handleLogProspect.
    rewrite (falsy_three _ _ _ He Hf Hc). simpl.
    repeat split; auto.
  - intros now iso st store Hf Hc He.
    unfold W.dispatch, W.handleLogProspect.
    rewrite (falsy_three _ _ _ Hf Hc He). simpl.
    repeat split; auto.
Qed.

Lemma handleLogProspect_prepends_witness :
  P.prospects (fst (P.dispatch (P.handleLogProspect 1730000000000 jane_hub) jane_hub ∅))
    = P.newProspect 1730000000000 jane_hub :: P.prospects jane_hub
  /\
  W.prospects
    (fst (W.dispatch (W.handleLogProspect 1730000000000 "2024-10-27T03:33:20.000Z" jane_flow)
            jane_flow ∅))
    = W.newProspect 1730000000000 "2024-10-27T03:33:20.000Z" jane_flow
      :: W.prospects jane_flow.
Proof.
  split.
  - apply (proj1 handleLogProspect_prepends 1730000000000 jane_hub ∅); discriminate.
  - apply (proj2 handleLogProspect_prepends 1730000000000
             "2024-10-27T03:33:20.000Z" jane_flow ∅); discriminate.
Defined.

(** C2: with first name, company or email empty, logging reports the
    validation message (an alert on one page, the error line on the other)
    and nothing else happens: the state setter of the list is not called,
    the list and the store are as before. *)
Theorem handleLogProspect_rejects :
  (forall (now : Z) (st : P.State) (store : gmap string string),
      P.firstName st = "" \/ P.company st = "" \/ P.email st = "" ->
      P.handleLogProspect now st = [P.alert P.log_alert] /\
      P.dispatch (P.handleLogProspect now st) st store = (st, store))
  /\
  (forall (now : Z) (iso : string) (st : W.State) (store : gmap string string),
      W.firstName st = "" \/ W.company st = "" \/ W.verifiedEmail st = "" ->
      W.handleLogProspect now iso st
        = [W.setError None; W.setError (Some W.log_error)] /\
      existsb W.sets_prospects (W.handleLogProspect now iso st) = false /\
      W.prospects (fst (W.dispatch (W.handleLogProspect now iso st) st store))
        = W.prospects st /\
      W.error (fst (W.dispatch (W.handleLogProspect now iso st) st store))
        = Some W.log_error /\
      snd (W.dispatch (W.handleLogProspect now iso st) st store) = store).
Proof.
  split.
  - intros now st store H.
    unfold P.dispatch, P.handleLogProspect.
    rewrite falsy_one_of_three by tauto. simpl. auto.
  - intros now iso st store H.
    unfold W.dispatch, W.handleLogProspect.
    rewrite (falsy_one_of_three _ _ _ H). simpl. auto.
Qed.

Lemma handleLogProspect_rejects_witness :
  P.dispatch (P.handleLogProspect 1730000000000 no_email_hub) no_email_hub ∅
    = (no_email_hub, ∅)
  /\
  snd (W.dispatch (W.handleLogProspect 1730000000000 "2024-10-27T03:33:20.000Z"
                     no_company_flow) no_company_flow ∅) = ∅.
Proof.
  split.
  - apply (proj1 handleLogProspect_rejects 1730000000000 no_email_hub ∅).
    right. right. reflexivity.
  - apply (proj2 handleLogProspect_rejects 1730000000000
             "2024-10-27T03:33:20.000Z" no_company_flow ∅).
    right. left. reflexivity.
Defined.

Lemma state_eta (st : P.State) :
  P.mkState (P.firstName st) (P.lastName st) (P.company st) (P.domain st)
    (P.email st) (P.title st) (P.prospects st) (P.showHelpers st)
    (P.aiGuesses st) (P.aiDraft st) = st.
Proof. destruct st. reflexivity. Qed.

Lemma filter_other_ids (id : Z) (l : list P.Prospect) :
  Forall (fun p => P.p_id p <> id) l ->
  List.filter (fun p => negb (P.p_id p =? id)) l = l.
Proof.
  induction 1 as [|p l Hp _ IH]; simpl; [reflexivity|].
  apply Z.eqb_neq in Hp. rewrite Hp. simpl. now rewrite IH.
Qed.

Lemma map_other_ids (id : Z) (s : string) (l : list P.Prospect) :
  Forall (fun p => P.p_id p <> id) l ->
  map (fun p => if P.p_id p =? id then P.with_status s p else p) l = l.
Proof.
  induction 1 as [|p l Hp _ IH]; simpl; [reflexivity|].
  apply Z.eqb_neq in Hp. rewrite Hp. now rewrite IH.
Qed.

(** C8: deleting or updating the status of an id that no record carries
    leaves the state as it was, whatever the answer to the confirmation;
    updating the status of an id that is present keeps the length and
    the order of the list, gives every record with that id the new status
    and its other fields unchanged, and keeps every other record as it
    was. *)
Theorem delete_and_update_frame :
  (forall (confirmed : bool) (id : Z) (st : P.State) (store : gmap string string),
      Forall (fun p => P.p_id p <> id) (P.prospects st) ->
      fst (P.dispatch (P.handleDeleteProspect confirmed id st) st store) = st)
  /\
  (forall (id : Z) (s : string) (st : P.State) (store : gmap string string),
      Forall (fun p => P.p_id p <> id) (P.prospects st) ->
      fst (P.dispatch (P.handleUpdateStatus id s st) st store) = st)
  /\
  (forall (id : Z) (s : string) (st : P.State) (store : gmap string string),
      let st' := fst (P.dispatch (P.handleUpdateStatus id s st) st store) in
      length (P.prospects st') = length (P.prospects st) /\
      forall (i : nat) (p : P.Prospect),
        P.prospects st !! i = Some p ->
        exists p' : P.Prospect,
          P.prospects st' !! i = Some p' /\
          P.p_id p' = P.p_id p /\
          P.p_firstName p' = P.p_firstName p /\
          P.p_lastName p' = P.p_lastName p /\
          P.p_company p' = P.p_company p /\
          P.p_domain p' = P.p_domain p /\
          P.p_email p' = P.p_email p /\
          P.p_title p' = P.p_title p /\
          (P.p_id p = id -> P.p_status p' = s) /\
          (P.p_id p <> id -> p' = p)).
Proof.
  split; [| split].
  - intros confirmed id st store H.
    unfold P.dispatch, P.handleDeleteProspect.
    destruct confirmed; simpl; [| reflexivity].
    rewrite (filter_other_ids id _ H). apply state_eta.
  - intros id s st store H.
    unfold P.dispatch, P.handleUpdateStatus. simpl.
    rewrite (map_other_ids id s _ H). apply state_eta.
  - intros id s st store. unfold P.dispatch, P.handleUpdateStatus. simpl.
    split; [apply length_map|].
    intros i p Hp.
    exists (if P.p_id p =? id then P.with_status s p else p).
    split.
    + rewrite list_lookup_fmap, Hp. reflexivity.
    + destruct (Z.eqb_spec (P.p_id p) id) as [E | E]; simpl;
        repeat split; auto; congruence.
Qed.

Lemma delete_and_update_frame_witness :
  fst (P.dispatch (P.handleDeleteProspect true 7 jane_hub) jane_hub ∅) = jane_hub
  /\ fst (P.dispatch (P.handleUpdateStatus 7 "Closed" jane_hub) jane_hub ∅) = jane_hub.
Proof.
  split.
  - apply (proj1 delete_and_update_frame true 7 jane_hub ∅).
    repeat constructor; discriminate.
  - apply (proj1 (proj2 delete_and_update_frame) 7 "Closed" jane_hub ∅).
    repeat constructor; discriminate.
Defined.

End ProspectList.

(** ** Search URLs *)
Section SearchUrl.

Lemma every_append (f : ascii -> bool) (a b : string) :
  every f (a +:+ b) = every f a && every f b.
Proof.
  induction a as [|x a IH]; simpl; [reflexivity|].
  rewrite IH. now rewrite andb_assoc.
Qed.

Lemma encode_unit_url_char (c : ascii) :
  every url_char (encode_unit uri_unescaped c) = true.
Proof. destruct c as [[] [] [] [] [] [] [] []]; reflexivity. Qed.

Lemma encodeURIComponent_url_char (s : string) :
  every url_char (encodeURIComponent s) = true.
Proof.
  unfold encodeURIComponent.
  induction s as [|c s IH]; simpl; [reflexivity|].
  now rewrite every_append, encode_unit_url_char, IH.
Qed.

Lemma encode_unit_nonempty (c : ascii) (t : string) :
  encode_unit uri_unescaped c +:+ t <> "".
Proof.
  unfold encode_unit, percent.
  destruct (uri_unescaped c); [discriminate|].
  destruct (N_of_ascii c <? 128)%N; discriminate.
Qed.

Lemma encodeURIComponent_nonempty (s : string) :
  s <> "" -> encodeURIComponent s <> "".
Proof.
  destruct s as [|c s]; [congruence|].
  intros _. apply encode_unit_nonempty.
Qed.

(** C6: for the email finder, [generateSearchUrl] returns [null] when the
    domain is empty, and [handleSearch] then only sets the error message:
    no window is opened. For a non-empty domain it returns the finder's
    address with two query parameters, [name] holding the escaped trimmed
    "first last" and [domain] holding the escaped domain; both escaped
    values are made of unescaped characters and percent escapes only, and
    [handleSearch] opens exactly that address. *)
Theorem generateSearchUrl_email_finder :
  (forall f l c : string, W.generateSearchUrl "experte" f l c "" = None)
  /\
  (forall st : W.State,
      W.companyDomain st = "" ->
      W.handleSearch "experte" st = [W.setError (Some W.domain_error)])
  /\
  (forall f l c d : string,
      d <> "" ->
      W.generateSearchUrl "experte" f l c d =
        Some ("https://www.experte.com/email-finder?name=" +:+
              encodeURIComponent (trim (f +:+ " " +:+ l)) +:+
              "&domain=" +:+ encodeURIComponent d) /\
      every url_char (encodeURIComponent (trim (f +:+ " " +:+ l))) = true /\
      every url_char (encodeURIComponent d) = true /\
      encodeURIComponent d <> "")
  /\
  (forall st : W.State,
      W.companyDomain st <> "" ->
      W.handleSearch "experte" st =
        [W.window_open
           ("https://www.experte.com/email-finder?name=" +:+
            encodeURIComponent (trim (W.firstName st +:+ " " +:+ W.lastName st)) +:+
            "&domain=" +:+ encodeURIComponent (W.companyDomain st))
           "_blank"]).
Proof.
  repeat split.
  - intros st H. unfold W.handleSearch, W.generateSearchUrl. rewrite H. reflexivity.
  - unfold W.generateSearchUrl. simpl. now rewrite falsy_false.
  - apply encodeURIComponent_url_char.
  - apply encodeURIComponent_url_char.
  - now apply encodeURIComponent_nonempty.
  - intros st H. unfold W.handleSearch, W.generateSearchUrl. simpl.
    now rewrite falsy_false.
Qed.

Lemma generateSearchUrl_email_finder_witness :
  W.generateSearchUrl "experte" "Jane" "Doe" "Acme Inc" "acme.com" =
    Some "https://www.experte.com/email-finder?name=Jane%20Doe&domain=acme.com"
  /\ W.handleSearch "experte" no_domain_flow = [W.setError (Some W.domain_error)].
Proof.
  split.
  - apply (proj1 (proj1 (proj2 (proj2 generateSearchUrl_email_finder))
                    "Jane" "Doe" "Acme Inc" "acme.com" ltac:(discriminate))).
  - apply (proj1 (proj2 generateSearchUrl_email_finder) no_domain_flow).
    reflexivity.
Defined.

End SearchUrl.

(** ** CSV export *)
Section Csv.

Lemma hub_row_single_line (p : P.Prospect) :
  hub_single_line p = true ->
  includes_unit (ascii_of_nat 10) (P.csv_row p) = false.
Proof.
  unfold hub_single_line, P.csv_row. intros H.
  repeat (apply andb_prop in H as [H ?]).
  repeat match goal with
         | E : negb _ = true |- _ => apply negb_true_iff in E
         end.
  rewrite !includes_unit_append.
  repeat match goal with
         | E : includes_unit _ _ = false |- _ => rewrite E; clear E
         end.
  reflexivity.
Qed.

Lemma flow_row_single_line (p : W.Prospect) :
  flow_single_line p = true ->
  includes_unit (ascii_of_nat 10) (W.csv_row p) = false.
Proof.
  unfold flow_single_line, W.csv_row. intros H.
  repeat (apply andb_prop in H as [H ?]).
  repeat match goal with
         | E : negb _ = true |- _ => apply negb_true_iff in E
         end.
  cbn [join]. rewrite !includes_unit_append.
  repeat match goal with
         | E : includes_unit _ _ = false |- _ => rewrite E; clear E
         end.
  reflexivity.
Qed.

Lemma hub_document_lines (l : list P.Prospect) :
  l <> [] ->
  Forall (fun p => hub_single_line p = true) l ->
  lines (P.csv_document l) =
    "firstName,lastName,company,domain,email,title,status" :: map P.csv_row l.
Proof.
  intros Hne Hl. destruct l as [|p rest]; [congruence|].
  unfold P.csv_document, P.csv_headers, P.csvContent.
  rewrite append_assoc.
  change (lines (join LF ("firstName,lastName,company,domain,email,title,status"
                            :: map P.csv_row (p :: rest)))
          = "firstName,lastName,company,domain,email,title,status"
              :: map P.csv_row (p :: rest)).
  apply lines_join. constructor; [reflexivity|].
  apply List.Forall_map. revert Hl. apply List.Forall_impl.
  intros q Hq. now apply hub_row_single_line.
Qed.

Lemma flow_document_lines (l : list W.Prospect) :
  l <> [] ->
  Forall (fun p => flow_single_line p = true) l ->
  lines (W.csv_document l) =
    "firstName,lastName,company,companyDomain,verifiedEmail,dateAdded"
      :: map W.csv_row l.
Proof.
  intros Hne Hl. destruct l as [|p rest]; [congruence|].
  unfold W.csv_document, W.csv_headers, W.csv_rows.
  change (lines (join LF ("firstName,lastName,company,companyDomain,verifiedEmail,dateAdded"
                            :: map W.csv_row (p :: rest)))
          = "firstName,lastName,company,companyDomain,verifiedEmail,dateAdded"
              :: map W.csv_row (p :: rest)).
  apply lines_join. constructor; [reflexivity|].
  apply List.Forall_map. revert Hl. apply List.Forall_impl.
  intros q Hq. now apply flow_row_single_line.
Qed.

(** C7 as stated fails: a record whose first name holds a line feed is
    exported without escaping, and the one-record document has three
    lines, not two. *)
Lemma csv_line_count_counterexample :
  [two_line_prospect] <> [] /\
  length (lines (P.csv_document [two_line_prospect])) = 3%nat /\
  length (lines (P.csv_document [two_line_prospect]))
    <> S (length [two_line_prospect]).
Proof. repeat split; discriminate. Qed.

(** C7, amended: on the empty list the export only raises the "no data"
    alert and emits no file. On a non-empty list it emits the document made
    of the fixed header, a line feed, and the rows of the records in list
    order joined by line feeds; a row is the record's fields, each between
    double quotes and unchanged, joined by commas. When no exported field
    holds a line feed, the lines of the document are exactly the header
    followed by the rows: one more line than records. *)
Theorem exportToCSV_document :
  (forall st : P.State,
      P.prospects st = [] ->
      P.exportToCSV st = [P.alert "No prospects to export!"])
  /\ W.exportToCSV [] = [W.alert "Your prospect list is empty!"]
  /\
  (forall st : P.State,
      P.prospects st <> [] ->
      P.exportToCSV st =
        [P.save_blob "prospect_list.csv" "text/csv;charset=utf-IS;,utf-8;"
           ("firstName,lastName,company,domain,email,title,status" +:+ LF +:+
            join LF (map P.csv_row (P.prospects st)))])
  /\
  (forall l : list W.Prospect,
      l <> [] ->
      W.exportToCSV l =
        [W.link_click
           (encodeURI
              ("data:text/csv;charset=utf-8," +:+
               "firstName,lastName,company,companyDomain,verifiedEmail,dateAdded"
               +:+ LF +:+ join LF (map W.csv_row l)))
           "prospect_list.csv"])
  /\
  (forall p : P.Prospect,
      P.csv_row p =
        DQ +:+ P.p_firstName p +:+ DQ +:+ "," +:+ DQ +:+ P.p_lastName p +:+ DQ +:+ "," +:+
        DQ +:+ P.p_company p +:+ DQ +:+ "," +:+ DQ +:+ P.p_domain p +:+ DQ +:+ "," +:+
        DQ +:+ P.p_email p +:+ DQ +:+ "," +:+ DQ +:+ P.p_title p +:+ DQ +:+ "," +:+
        DQ +:+ P.p_status p +:+ DQ)
  /\
  (forall p : W.Prospect,
      W.csv_row p =
        DQ +:+ W.p_firstName p +:+ DQ +:+ "," +:+ DQ +:+ W.p_lastName p +:+ DQ +:+ "," +:+
        DQ +:+ W.p_company p +:+ DQ +:+ "," +:+ DQ +:+ W.p_companyDomain p +:+ DQ +:+ "," +:+
        DQ +:+ W.p_email p +:+ DQ +:+ "," +:+ DQ +:+ W.p_dateAdded p +:+ DQ)
  /\
  (forall l : list P.Prospect,
      l <> [] ->
      Forall (fun p => hub_single_line p = true) l ->
      lines (P.csv_document l) =
        "firstName,lastName,company,domain,email,title,status" :: map P.csv_row l /\
      length (lines (P.csv_document l)) = S (length l))
  /\
  (forall l : list W.Prospect,
      l <> [] ->
      Forall (fun p => flow_single_line p = true) l ->
      lines (W.csv_document l) =
        "firstName,lastName,company,companyDomain,verifiedEmail,dateAdded"
          :: map W.csv_row l /\
      length (lines (W.csv_document l)) = S (length l)).
Proof.
  split; [| split; [| split; [| split; [| split; [| split; [| split]]]]]].
  - intros st H. unfold P.exportToCSV. now rewrite H.
  - reflexivity.
  - intros st H. unfold P.exportToCSV.
    destruct (P.prospects st) as [|p rest] eqn:E; [congruence|].
    unfold P.csv_document, P.csv_headers, P.csvContent.
    now rewrite append_assoc.
  - intros l H. destruct l as [|p rest]; [congruence|]. reflexivity.
  - reflexivity.
  - intros p. unfold W.csv_row. cbn [join].
    rewrite !append_assoc. reflexivity.
  - intros l Hne Hl. rewrite (hub_document_lines l Hne Hl).
    split; [reflexivity|]. simpl. now rewrite length_map.
  - intros l Hne Hl. rewrite (flow_document_lines l Hne Hl).
    split; [reflexivity|]. simpl. now rewrite length_map.
Qed.

Lemma exportToCSV_document_witness :
  length (lines (P.csv_document (P.prospects jane_hub)))
    = S (length (P.prospects jane_hub))
  /\ length (lines (W.csv_document (W.prospects jane_flow)))
    = S (length (W.prospects jane_flow)).
Proof.
  split.
  - apply (proj1 (proj2 (proj2 (proj2 (proj2 (proj2 (proj2 exportToCSV_document))))))
             (P.prospects jane_hub)).
    + discriminate.
    + repeat constructor.
  - apply (proj2 (proj2 (proj2 (proj2 (proj2 (proj2 (proj2 exportToCSV_document))))))
             (W.prospects jane_flow)).
    + discriminate.
    + repeat constructor.
Defined.

End Csv.

(** ** JSON: what [JSON.parse] reads back from [JSON.stringify] *)
Section JsonFacts.

(** *** String literals *)

Lemma parse_chars_escape_unit (c : ascii) (x : string) :
  parse_chars (escape_unit c +:+ x) =
    match parse_chars x with
    | Some (t, exact, rest) => Some (String c t, exact, rest)
    | None => None
    end.
Proof. destruct c as [[] [] [] [] [] [] [] []]; reflexivity. Qed.

Lemma parse_chars_escape (s rest : string) :
  parse_chars (escape s +:+ DQ +:+ rest) = Some (s, true, rest).
Proof.
  induction s as [|c s IH]; [reflexivity|].
  cbn [escape]. rewrite append_assoc, parse_chars_escape_unit, IH.
  reflexivity.
Qed.

(** *** Numbers *)

Lemma span_digits_uint (d : Decimal.uint) (rest : string) :
  match rest with
  | EmptyString => True
  | String c _ => is_digit c = false
  end ->
  span_digits (NilEmpty.string_of_uint d +:+ rest)
    = (NilEmpty.string_of_uint d, rest).
Proof.
  intros Hrest.
  induction d as [|d IH|d IH|d IH|d IH|d IH|d IH|d IH|d IH|d IH|d IH];
    try (cbn [NilEmpty.string_of_uint]; simpl; rewrite IH; reflexivity).
  simpl. destruct rest as [|c r]; [reflexivity|].
  simpl. now rewrite Hrest.
Qed.

Lemma nzhead_no_leading_zero (d : Decimal.uint) :
  match Decimal.nzhead d with
  | Decimal.D0 _ => False
  | _ => True
  end.
Proof. induction d; simpl; auto. Qed.

(** The decimal digits of a natural number: never empty, no leading zero
    except for zero itself. *)
Lemma to_uint_shape (n : N) :
  match N.to_uint n with
  | Decimal.Nil => False
  | Decimal.D0 d => d = Decimal.Nil
  | _ => True
  end.
Proof.
  pose proof (DecimalN.Unsigned.to_of (N.to_uint n)) as H.
  rewrite DecimalN.Unsigned.of_to in H.
  rewrite H. unfold Decimal.unorm.
  pose proof (nzhead_no_leading_zero (N.to_uint n)) as Hz.
  destruct (Decimal.nzhead (N.to_uint n)); auto; contradiction.
Qed.

Lemma N_of_digits_of_N (n : N) : N_of_digits (digits_of_N n) = n.
Proof.
  unfold N_of_digits, digits_of_N.
  rewrite NilEmpty.usu. apply DecimalN.Unsigned.of_to.
Qed.

Lemma parse_int_digits (n : N) (rest : string) :
  match rest with
  | EmptyString => True
  | String c _ => is_digit c = false
  end ->
  parse_int (digits_of_N n +:+ rest) = Some (digits_of_N n, rest).
Proof.
  intros Hrest. unfold parse_int, digits_of_N.
  rewrite (span_digits_uint _ _ Hrest).
  pose proof (to_uint_shape n) as Hs.
  destruct (N.to_uint n) as [|d|d|d|d|d|d|d|d|d|d]; try contradiction;
    try reflexivity.
  subst d. reflexivity.
Qed.

Lemma closes_cases (rest : string) :
  closes rest = true ->
  rest = "" \/ exists r, rest = String "," r \/ rest = String "]" r \/ rest = String "}" r.
Proof.
  destruct rest as [|c r]; [now left|].
  intros H. right. exists r.
  destruct c as [[] [] [] [] [] [] [] []]; simpl in H; try discriminate H; auto.
Qed.

Lemma closes_not_digit (rest : string) :
  closes rest = true ->
  match rest with
  | EmptyString => True
  | String c _ => is_digit c = false
  end.
Proof.
  intros H. destruct (closes_cases rest H) as [-> | [r [-> | [-> | ->]]]];
    [exact I | reflexivity..].
Qed.

Lemma parse_frac_closes (rest : string) :
  closes rest = true -> parse_frac rest = Some (false, rest).
Proof.
  intros H. destruct (closes_cases rest H) as [-> | [r [-> | [-> | ->]]]];
    reflexivity.
Qed.

Lemma parse_exp_closes (rest : string) :
  closes rest = true -> parse_exp rest = Some (false, rest).
Proof.
  intros H. destruct (closes_cases rest H) as [-> | [r [-> | [-> | ->]]]];
    reflexivity.
Qed.

Lemma skip_ws_closes (rest : string) :
  closes rest = true -> skip_ws rest = rest.
Proof.
  intros H. destruct (closes_cases rest H) as [-> | [r [-> | [-> | ->]]]];
    reflexivity.
Qed.

Lemma parse_unsigned_digits (neg : bool) (m : N) (rest : string) :
  closes rest = true ->
  parse_unsigned neg (digits_of_N m +:+ rest) =
    Some (if neg then - Z.of_N m else Z.of_N m,
          negb (neg && (Z.of_N m =? 0)) && (Z.of_N m <=? max_safe_integer),
          rest).
Proof.
  intros H. unfold parse_unsigned.
  rewrite (parse_int_digits m rest (closes_not_digit rest H)).
  rewrite (parse_frac_closes rest H), (parse_exp_closes rest H).
  rewrite N_of_digits_of_N. reflexivity.
Qed.

Lemma parse_number_digits (m : N) (rest : string) :
  parse_number (digits_of_N m +:+ rest)
    = parse_unsigned false (digits_of_N m +:+ rest).
Proof.
  unfold digits_of_N. pose proof (to_uint_shape m) as Hs.
  destruct (N.to_uint m); try contradiction; reflexivity.
Qed.

Lemma starts_number_to_string (n : Z) (rest : string) :
  starts_number (number_to_string n +:+ rest) = true.
Proof.
  unfold number_to_string. destruct (n <? 0); [reflexivity|].
  unfold digits_of_N. pose proof (to_uint_shape (Z.to_N n)) as Hs.
  destruct (N.to_uint (Z.to_N n)); try contradiction; reflexivity.
Qed.

Lemma parse_number_to_string (n : Z) (rest : string) :
  safe_integer n = true ->
  closes rest = true ->
  parse_number (number_to_string n +:+ rest) = Some (n, true, rest).
Proof.
  intros Hn Hrest. unfold safe_integer in Hn.
  apply andb_prop in Hn as [Hlo Hhi].
  apply Z.leb_le in Hlo, Hhi.
  unfold number_to_string. destruct (Z.ltb_spec n 0) as [Hneg | Hpos].
  - change (parse_number (("-" +:+ digits_of_N (Z.to_N (- n))) +:+ rest))
      with (parse_unsigned true (digits_of_N (Z.to_N (- n)) +:+ rest)).
    rewrite (parse_unsigned_digits true _ rest Hrest).
    rewrite Z2N.id by lia.
    replace (- n =? 0) with false by (symmetry; apply Z.eqb_neq; lia).
    replace (- n <=? max_safe_integer) with true
      by (symmetry; apply Z.leb_le; lia).
    simpl. f_equal. f_equal. f_equal. lia.
  - rewrite parse_number_digits.
    rewrite (parse_unsigned_digits false _ rest Hrest).
    rewrite Z2N.id by lia.
    replace (n <=? max_safe_integer) with true
      by (symmetry; apply Z.leb_le; lia).
    reflexivity.
Qed.

Lemma parse_value_number (fuel : nat) (s : string) :
  starts_number s = true ->
  parse_value (S fuel) s =
    match parse_number s with
    | Some (z, exact, rest) => Some (JNum z, exact, rest)
    | None => None
    end.
Proof.
  destruct s as [|c s1]; [discriminate|].
  intros H.
  destruct c as [[] [] [] [] [] [] [] []]; try discriminate H; reflexivity.
Qed.

(** *** Values *)

Lemma starts_number_value (s : string) :
  starts_number s = true -> starts_value s = true.
Proof.
  destruct s as [|c s1]; [discriminate|]. intros H.
  destruct c as [[] [] [] [] [] [] [] []]; try discriminate H; reflexivity.
Qed.

Lemma stringify_arr (elems : list json) :
  stringify (JArr elems) = "[" +:+ join "," (map stringify elems) +:+ "]".
Proof. reflexivity. Qed.

Lemma stringify_obj (members : list (string * json)) :
  stringify (JObj members) = "{" +:+ join "," (map member_text members) +:+ "}".
Proof. reflexivity. Qed.

Lemma starts_value_stringify (v : json) (rest : string) :
  starts_value (stringify v +:+ rest) = true.
Proof.
  destruct v as [|[]|n|s|elems|members]; try reflexivity.
  apply starts_number_value, starts_number_to_string.
Qed.

Lemma stringify_length (v : json) : (1 <= String.length (stringify v))%nat.
Proof.
  pose proof (starts_value_stringify v "") as H.
  rewrite append_empty_r in H.
  destruct (stringify v); [discriminate | simpl; lia].
Qed.

Lemma parse_value_array (fuel : nat) (x : string) :
  starts_value x = true ->
  parse_value (S fuel) (String "[" x) =
    match parse_elements fuel x with
    | Some (vs, exact, rest) => Some (JArr vs, exact, rest)
    | None => None
    end.
Proof.
  destruct x as [|c s1]; [discriminate|]. intros H.
  apply andb_prop in H as [Hws Hclose].
  apply negb_true_iff in Hws, Hclose.
  simpl. rewrite Hws, Hclose. reflexivity.
Qed.

Lemma parse_elements_step (fuel : nat) (s : string) :
  parse_elements (S fuel) s =
    match parse_value fuel s with
    | None => None
    | Some (v, exact, r) =>
        match skip_ws r with
        | String d r' =>
            if (N_of_ascii d =? 44)%N then
              match parse_elements fuel r' with
              | Some (vs, exact', rest) => Some (v :: vs, exact && exact', rest)
              | None => None
              end
            else if (N_of_ascii d =? 93)%N then Some ([v], exact, r')
            else None
        | EmptyString => None
        end
    end.
Proof. reflexivity. Qed.

Lemma parse_elements_join (l : list json) :
  l <> [] ->
  Forall reads_back l ->
  forall (rest : string) (fuel : nat),
    (2 * String.length (join "," (map stringify l)) + 2 <= fuel)%nat ->
    parse_elements fuel (join "," (map stringify l) +:+ "]" +:+ rest)
      = Some (l, true, rest).
Proof.
  induction l as [|v l IH]; [congruence|].
  intros _ Hall rest fuel Hfuel.
  inversion Hall as [|? ? Hv Hl]; subst.
  destruct fuel as [|fuel]; [lia|].
  rewrite parse_elements_step.
  destruct l as [|w l].
  - cbn [map join] in *.
    rewrite (Hv ("]" +:+ rest) fuel) by (reflexivity || lia).
    reflexivity.
  - change (join "," (map stringify (v :: w :: l)))
      with (stringify v +:+ "," +:+ join "," (map stringify (w :: l))) in *.
    rewrite !length_append in Hfuel.
    change (String.length ",") with 1%nat in Hfuel.
    rewrite !append_assoc.
    rewrite (Hv ("," +:+ join "," (map stringify (w :: l)) +:+ "]" +:+ rest) fuel)
      by (reflexivity || lia).
    remember (join "," (map stringify (w :: l)) +:+ "]" +:+ rest) as tail eqn:Etail.
    simpl. subst tail.
    rewrite (IH ltac:(discriminate) Hl rest fuel) by lia.
    reflexivity.
Qed.

Lemma parse_value_object (fuel : nat) (y : string) :
  parse_value (S fuel) (String "{" (DQ +:+ y)) =
    match parse_members fuel (DQ +:+ y) with
    | Some (ms, exact, rest) => Some (JObj ms, exact && keys_plain (map fst ms), rest)
    | None => None
    end.
Proof. reflexivity. Qed.

Lemma parse_members_step (fuel : nat) (y : string) :
  parse_members (S fuel) (DQ +:+ y) =
    match parse_chars y with
    | None => None
    | Some (k, kexact, r0) =>
        match skip_ws r0 with
        | String colon r1 =>
            if (N_of_ascii colon =? 58)%N then
              match parse_value fuel r1 with
              | None => None
              | Some (v, exact, r) =>
                  match skip_ws r with
                  | String d r' =>
                      if (N_of_ascii d =? 44)%N then
                        match parse_members fuel r' with
                        | Some (ms, exact', rest) =>
                            Some ((k, v) :: ms, kexact && exact && exact', rest)
                        | None => None
                        end
                      else if (N_of_ascii d =? 125)%N
                      then Some ([(k, v)], kexact && exact, r')
                      else None
                  | EmptyString => None
                  end
              end
            else None
        | EmptyString => None
        end
    end.
Proof. reflexivity. Qed.

Lemma member_text_append (k : string) (v : json) (tail : string) :
  member_text (k, v) +:+ tail
    = DQ +:+ (escape k +:+ DQ +:+ (":" +:+ (stringify v +:+ tail))).
Proof.
  unfold member_text, quote. cbn [fst snd].
  now rewrite !append_assoc.
Qed.

Lemma member_text_length (k : string) (v : json) :
  (String.length (stringify v) + 3 <= String.length (member_text (k, v)))%nat.
Proof.
  unfold member_text, quote. cbn [fst snd].
  rewrite !length_append. unfold DQ. simpl String.length. lia.
Qed.

Lemma parse_members_join (ms : list (string * json)) :
  ms <> [] ->
  Forall (fun kv => reads_back (snd kv)) ms ->
  forall (rest : string) (fuel : nat),
    (2 * String.length (join "," (map member_text ms)) + 2 <= fuel)%nat ->
    parse_members fuel (join "," (map member_text ms) +:+ "}" +:+ rest)
      = Some (ms, true, rest).
Proof.
  induction ms as [|[k v] ms IH]; [congruence|].
  intros _ Hall rest fuel Hfuel.
  inversion Hall as [|? ? Hv Hms]; subst. cbn [snd] in Hv.
  destruct fuel as [|fuel]; [lia|].
  pose proof (member_text_length k v) as Hlen.
  destruct ms as [|kw ms].
  - cbn [map join] in *.
    rewrite member_text_append, parse_members_step, parse_chars_escape.
    remember (stringify v +:+ "}" +:+ rest) as tail eqn:Etail.
    simpl. subst tail.
    rewrite (Hv ("}" +:+ rest) fuel) by (reflexivity || lia).
    reflexivity.
  - change (join "," (map member_text ((k, v) :: kw :: ms)))
      with (member_text (k, v) +:+ "," +:+ join "," (map member_text (kw :: ms))) in *.
    rewrite !length_append in Hfuel.
    change (String.length ",") with 1%nat in Hfuel.
    rewrite !append_assoc.
    rewrite member_text_append, parse_members_step, parse_chars_escape.
    remember (stringify v +:+ "," +:+ join "," (map member_text (kw :: ms))
              +:+ "}" +:+ rest) as tail eqn:Etail.
    simpl. subst tail.
    rewrite (Hv ("," +:+ join "," (map member_text (kw :: ms)) +:+ "}" +:+ rest) fuel)
      by (reflexivity || lia).
    remember (join "," (map member_text (kw :: ms)) +:+ "}" +:+ rest) as tail eqn:Etail.
    simpl. subst tail.
    rewrite (IH ltac:(discriminate) Hms rest fuel) by lia.
    reflexivity.
Qed.

Lemma starts_value_join (v : json) (l : list json) (tail : string) :
  starts_value (join "," (map stringify (v :: l)) +:+ tail) = true.
Proof.
  destruct l as [|w l].
  - apply starts_value_stringify.
  - change (join "," (map stringify (v :: w :: l)))
      with (stringify v +:+ "," +:+ join "," (map stringify (w :: l))).
    rewrite append_assoc. apply starts_value_stringify.
Qed.

Lemma members_start (kv : string * json) (ms : list (string * json)) (tail : string) :
  exists y, join "," (map member_text (kv :: ms)) +:+ tail = DQ +:+ y.
Proof.
  destruct kv as [k v]. destruct ms as [|kw ms].
  - cbn [map join]. rewrite member_text_append. eauto.
  - change (join "," (map member_text ((k, v) :: kw :: ms)))
      with (member_text (k, v) +:+ "," +:+ join "," (map member_text (kw :: ms))).
    rewrite append_assoc, member_text_append. eauto.
Qed.

(** Every representable value, written by [stringify], is read back. *)
Lemma parse_value_stringify (v : json) :
  representable v = true -> reads_back v.
Proof.
  induction v as [|b|n|s|elems IH|members IH] using json_ind;
    intros Hrep rest fuel Hrest Hfuel;
    (destruct fuel as [|fuel]; [lia|]).
  - reflexivity.
  - destruct b; reflexivity.
  - rewrite parse_value_number by apply starts_number_to_string.
    cbn [stringify]. now rewrite parse_number_to_string.
  - cbn [stringify]. unfold quote. rewrite !append_assoc.
    change (parse_value (S fuel) (DQ +:+ escape s +:+ DQ +:+ rest))
      with (match parse_chars (escape s +:+ DQ +:+ rest) with
            | Some (t, exact, r) => Some (JStr t, exact, r)
            | None => None
            end).
    now rewrite parse_chars_escape.
  - rewrite stringify_arr in *. cbn [representable] in Hrep.
    assert (Hall : Forall reads_back elems).
    { clear Hfuel. induction IH as [|w l Hw _ IHl]; [constructor|].
      cbn [forallb] in Hrep. apply andb_prop in Hrep as [Hw' Hl'].
      constructor; auto. }
    destruct elems as [|w l]; [reflexivity|].
    rewrite !length_append in Hfuel.
    change (String.length "[") with 1%nat in Hfuel.
    change (String.length "]") with 1%nat in Hfuel.
    rewrite !append_assoc.
    change ("[" +:+ join "," (map stringify (w :: l)) +:+ "]" +:+ rest)
      with (String "[" (join "," (map stringify (w :: l)) +:+ "]" +:+ rest)).
    rewrite parse_value_array by apply starts_value_join.
    rewrite (parse_elements_join (w :: l)) by (discriminate || assumption || lia).
    reflexivity.
  - rewrite stringify_obj in *. cbn [representable] in Hrep.
    apply andb_prop in Hrep as [Hkeys Hrep].
    assert (Hall : Forall (fun kv => reads_back (snd kv)) members).
    { clear Hfuel Hkeys. induction IH as [|w l Hw _ IHl]; [constructor|].
      cbn [forallb] in Hrep. apply andb_prop in Hrep as [Hw' Hl'].
      constructor; auto. }
    destruct members as [|kv ms]; [reflexivity|].
    rewrite !length_append in Hfuel.
    change (String.length "{") with 1%nat in Hfuel.
    change (String.length "}") with 1%nat in Hfuel.
    rewrite !append_assoc.
    change ("{" +:+ join "," (map member_text (kv :: ms)) +:+ "}" +:+ rest)
      with (String "{" (join "," (map member_text (kv :: ms)) +:+ "}" +:+ rest)).
    destruct (members_start kv ms ("}" +:+ rest)) as [y Ey].
    rewrite Ey, parse_value_object, <- Ey.
    rewrite (parse_members_join (kv :: ms)) by (discriminate || assumption || lia).
    now rewrite Hkeys.
Qed.

(** [JSON.parse (JSON.stringify v)] is [v] for every representable value. *)
Lemma parse_stringify (v : json) :
  representable v = true -> parse (stringify v) = Parsed v.
Proof.
  intros Hrep.
  pose proof (parse_value_stringify v Hrep "" (steps_for (stringify v)) eq_refl) as E.
  rewrite append_empty_r in E.
  unfold parse. rewrite E by (unfold steps_for; lia).
  reflexivity.
Qed.

End JsonFacts.

(** ** JSON: the parser never runs out of steps *)
Section ParserSteps.

Lemma skip_ws_length (s : string) :
  (String.length (skip_ws s) <= String.length s)%nat.
Proof.
  induction s as [|c s IH]; simpl; [lia|].
  destruct (is_ws c); simpl; lia.
Qed.

Lemma skip_ws_cons_length (s r : string) (c : ascii) :
  skip_ws s = String c r -> (S (String.length r) <= String.length s)%nat.
Proof.
  intros H. pose proof (skip_ws_length s) as L. rewrite H in L. exact L.
Qed.

Lemma expect_rest (w s r : string) :
  expect w s = Some r -> (String.length r <= String.length s)%nat.
Proof.
  revert s. induction w as [|a w IH]; intros s H; simpl in H.
  - injection H as ->. lia.
  - destruct s as [|b s]; [discriminate|].
    destruct (Ascii.eqb a b); [|discriminate].
    apply IH in H. simpl. lia.
Qed.

Lemma parse_chars_rest_bounded (n : nat) :
  forall s t e r,
    (String.length s <= n)%nat ->
    parse_chars s = Some (t, e, r) ->
    (S (String.length r) <= String.length s)%nat.
Proof.
  induction n as [|n IH]; intros s t e r Hn H.
  - destruct s; [discriminate | simpl in Hn; lia].
  - destruct s as [|c s1]; [discriminate|].
    simpl in H. simpl in Hn.
    destruct (N_of_ascii c =? 34)%N.
    { injection H as _ _ ->. simpl. lia. }
    destruct (N_of_ascii c =? 92)%N.
    + destruct s1 as [|e1 s2]; [discriminate|].
      destruct (N_of_ascii e1 =? 117)%N.
      * destruct s2 as [|h1 [|h2 [|h3 [|h4 s3]]]]; try discriminate.
        destruct (hex4 h1 h2 h3 h4); [|discriminate].
        destruct (parse_chars s3) as [[[t' e'] r']|] eqn:E; [|discriminate].
        apply IH in E; [| simpl in Hn; lia].
        destruct (_ <? 256)%N; injection H as _ _ ->; simpl; lia.
      * destruct (simple_escape e1); [|discriminate].
        destruct (parse_chars s2) as [[[t' e'] r']|] eqn:E; [|discriminate].
        apply IH in E; [| simpl in Hn; lia].
        injection H as _ _ ->. simpl. lia.
    + destruct (N_of_ascii c <? 32)%N; [discriminate|].
      destruct (parse_chars s1) as [[[t' e'] r']|] eqn:E; [|discriminate].
      apply IH in E; [| lia].
      injection H as _ _ ->. simpl. lia.
Qed.

Lemma parse_chars_rest (s t r : string) (e : bool) :
  parse_chars s = Some (t, e, r) ->
  (S (String.length r) <= String.length s)%nat.
Proof. apply (parse_chars_rest_bounded (String.length s)). lia. Qed.

Lemma span_digits_rest (s ds r : string) :
  span_digits s = (ds, r) ->
  (String.length ds + String.length r = String.length s)%nat.
Proof.
  revert ds r. induction s as [|c s IH]; intros ds r H; simpl in H.
  - injection H as <- <-. reflexivity.
  - destruct (is_digit c).
    + destruct (span_digits s) as [ds' r'] eqn:E.
      injection H as <- <-. specialize (IH _ _ eq_refl). simpl. lia.
    + injection H as <- <-. reflexivity.
Qed.

Lemma parse_int_rest (s ds r : string) :
  parse_int s = Some (ds, r) -> (S (String.length r) <= String.length s)%nat.
Proof.
  unfold parse_int. destruct (span_digits s) as [ds' r'] eqn:E.
  apply span_digits_rest in E.
  destruct ds' as [|c ds'']; [discriminate|].
  destruct (_ && _); [discriminate|].
  intros H. injection H as <- <-. simpl in E. lia.
Qed.

Lemma parse_frac_rest (s r : string) (b : bool) :
  parse_frac s = Some (b, r) -> (String.length r <= String.length s)%nat.
Proof.
  unfold parse_frac. destruct s as [|c s'].
  - intros H. injection H as _ <-. lia.
  - destruct (N_of_ascii c =? 46)%N.
    + destruct (span_digits s') as [ds r'] eqn:E.
      apply span_digits_rest in E.
      destruct ds; [discriminate|].
      intros H. injection H as _ <-. simpl. lia.
    + intros H. injection H as _ <-. lia.
Qed.

Lemma skip_sign_length (s : string) :
  (String.length (skip_sign s) <= String.length s)%nat.
Proof.
  destruct s as [|c s']; simpl; [lia|].
  destruct (_ || _)%N; simpl; lia.
Qed.

Lemma parse_exp_rest (s r : string) (b : bool) :
  parse_exp s = Some (b, r) -> (String.length r <= String.length s)%nat.
Proof.
  unfold parse_exp. destruct s as [|c s'].
  - intros H. injection H as _ <-. lia.
  - destruct (_ || _)%N.
    + destruct (span_digits (skip_sign s')) as [ds r'] eqn:E.
      apply span_digits_rest in E.
      pose proof (skip_sign_length s').
      destruct ds; [discriminate|].
      intros H'. injection H' as _ <-. simpl. lia.
    + intros H. injection H as _ <-. lia.
Qed.

Lemma parse_unsigned_rest (neg : bool) (s r : string) (z : Z) (e : bool) :
  parse_unsigned neg s = Some (z, e, r) ->
  (S (String.length r) <= String.length s)%nat.
Proof.
  unfold parse_unsigned.
  destruct (parse_int s) as [[ds r1]|] eqn:E1; [|discriminate].
  destruct (parse_frac r1) as [[hf r2]|] eqn:E2; [|discriminate].
  destruct (parse_exp r2) as [[he r3]|] eqn:E3; [|discriminate].
  apply parse_int_rest in E1. apply parse_frac_rest in E2.
  apply parse_exp_rest in E3.
  intros H. injection H as _ _ <-. lia.
Qed.

Lemma parse_number_rest (s r : string) (z : Z) (e : bool) :
  parse_number s = Some (z, e, r) ->
  (S (String.length r) <= String.length s)%nat.
Proof.
  unfold parse_number. destruct s as [|c s'].
  - apply parse_unsigned_rest.
  - destruct (N_of_ascii c =? 45)%N; intros H;
      apply parse_unsigned_rest in H; simpl in *; lia.
Qed.

(** Collect what the intermediate results say about lengths. *)
Ltac rest_facts IHv IHe IHm :=
  repeat match goal with
         | E : expect _ _ = Some _ |- _ => apply expect_rest in E
         | E : parse_chars _ = Some _ |- _ => apply parse_chars_rest in E
         | E : parse_number _ = Some _ |- _ => apply parse_number_rest in E
         | E : parse_value _ _ = Some _ |- _ => apply IHv in E
         | E : parse_elements _ _ = Some _ |- _ => apply IHe in E
         | E : parse_members _ _ = Some _ |- _ => apply IHm in E
         | E : skip_ws _ = String _ _ |- _ => apply skip_ws_cons_length in E
         end.

Ltac break_match_in H :=
  repeat match type of H with
         | context [if ?b then _ else _] => destruct b
         | context [match ?x with _ => _ end] => destruct x eqn:?
         end;
  try discriminate H.

(** The text left over is never longer than the text read. *)
Lemma parse_rest_length (fuel : nat) :
  (forall s v e r,
      parse_value fuel s = Some (v, e, r) ->
      (String.length r <= String.length s)%nat)
  /\ (forall s vs e r,
         parse_elements fuel s = Some (vs, e, r) ->
         (String.length r <= String.length s)%nat)
  /\ (forall s ms e r,
         parse_members fuel s = Some (ms, e, r) ->
         (String.length r <= String.length s)%nat).
Proof.
  induction fuel as [|fuel [IHv [IHe IHm]]]; [repeat split; discriminate|].
  repeat split.
  - intros s v e r H. cbn [parse_value parse_elements parse_members] in H.
    destruct (skip_ws s) as [|c s1] eqn:Ews; [discriminate|].
    break_match_in H; injection H as _ _ <-;
      rest_facts IHv IHe IHm; simpl in *; lia.
  - intros s vs e r H. cbn [parse_value parse_elements parse_members] in H.
    break_match_in H; injection H as _ _ <-;
      rest_facts IHv IHe IHm; simpl in *; lia.
  - intros s ms e r H. cbn [parse_value parse_elements parse_members] in H.
    break_match_in H; injection H as _ _ <-;
      rest_facts IHv IHe IHm; simpl in *; lia.
Qed.

(** With [2 * length + 1] steps for a value, and one more for a sequence
    of elements or members, more steps do not change the outcome. *)
Lemma parse_steps_enough (fuel : nat) :
  (forall s fuel',
      (2 * String.length s + 1 <= fuel)%nat -> (fuel <= fuel')%nat ->
      parse_value fuel' s = parse_value fuel s)
  /\ (forall s fuel',
         (2 * String.length s + 2 <= fuel)%nat -> (fuel <= fuel')%nat ->
         parse_elements fuel' s = parse_elements fuel s)
  /\ (forall s fuel',
         (2 * String.length s + 2 <= fuel)%nat -> (fuel <= fuel')%nat ->
         parse_members fuel' s = parse_members fuel s).
Proof.
  induction fuel as [|fuel [IHv [IHe IHm]]]; [repeat split; intros; lia|].
  destruct (parse_rest_length fuel) as [Lv [Le Lm]].
  repeat split; intros s fuel' Hs Hf;
    (destruct fuel' as [|fuel']; [lia|]).
  - simpl.
    destruct (skip_ws s) as [|c s1] eqn:Ews; [reflexivity|].
    apply skip_ws_cons_length in Ews.
    rewrite (IHe s1 fuel') by lia. rewrite (IHm s1 fuel') by lia.
    reflexivity.
  - simpl. rewrite (IHv s fuel') by lia.
    destruct (parse_value fuel s) as [[[v e] r]|] eqn:E; [|reflexivity].
    apply Lv in E.
    destruct (skip_ws r) as [|d r'] eqn:Ews; [reflexivity|].
    apply skip_ws_cons_length in Ews.
    rewrite (IHe r' fuel') by lia. reflexivity.
  - simpl.
    destruct (skip_ws s) as [|q s1] eqn:Ews; [reflexivity|].
    apply skip_ws_cons_length in Ews.
    destruct (N_of_ascii q =? 34)%N; [|reflexivity].
    destruct (parse_chars s1) as [[[k ke] r0]|] eqn:Ek; [|reflexivity].
    apply parse_chars_rest in Ek.
    destruct (skip_ws r0) as [|colon r1] eqn:Ews0; [reflexivity|].
    apply skip_ws_cons_length in Ews0.
    destruct (N_of_ascii colon =? 58)%N; [|reflexivity].
    rewrite (IHv r1 fuel') by lia.
    destruct (parse_value fuel r1) as [[[v e] r]|] eqn:E; [|reflexivity].
    apply Lv in E.
    destruct (skip_ws r) as [|d r'] eqn:Ews1; [reflexivity|].
    apply skip_ws_cons_length in Ews1.
    rewrite (IHm r' fuel') by lia. reflexivity.
Qed.

(** [parse] gives a text as many steps as it can use: with more, the value
    read and the text left over are the same. *)
Lemma parse_value_steps_for (s : string) (fuel : nat) :
  (steps_for s <= fuel)%nat ->
  parse_value fuel s = parse_value (steps_for s) s.
Proof.
  intros H. apply (proj1 (parse_steps_enough (steps_for s))); [|exact H].
  unfold steps_for. lia.
Qed.

End ParserSteps.

(** ** Persistence: loading and saving the list *)
Section Persistence.

Lemma hub_prospects_representable (l : list P.Prospect) :
  Forall (fun p => safe_integer (P.p_id p) = true) l ->
  representable (P.prospects_json l) = true.
Proof.
  unfold P.prospects_json. cbn [representable].
  induction 1 as [|p l Hp _ IH]; [reflexivity|].
  cbn [map forallb]. rewrite IH, andb_true_r.
  unfold P.prospect_json. cbn [representable forallb snd]. rewrite Hp.
  reflexivity.
Qed.

Lemma flow_prospects_representable (l : list W.Prospect) :
  representable (W.prospects_json l) = true.
Proof.
  unfold W.prospects_json. cbn [representable].
  induction l as [|p l IH]; [reflexivity|].
  cbn [map forallb]. rewrite IH. reflexivity.
Qed.

Lemma cons_eq_inv {A : Type} (x y : A) (l l' : list A) :
  x :: l = y :: l' -> x = y /\ l = l'.
Proof. intros H. injection H as Hx Hl. auto. Qed.

Lemma map_injective {A B : Type} (f : A -> B) :
  (forall x y, f x = f y -> x = y) ->
  forall l l' : list A, map f l = map f l' -> l = l'.
Proof.
  intros Hf. induction l as [|x l IH]; intros [|y l'] H; try discriminate H.
  - reflexivity.
  - cbn [map] in H. apply cons_eq_inv in H as [Hx Hl].
    f_equal; auto.
Qed.

Lemma hub_prospect_json_inj (p q : P.Prospect) :
  P.prospect_json p = P.prospect_json q -> p = q.
Proof.
  destruct p, q. unfold P.prospect_json. cbn.
  intros H. injection H as -> -> -> -> -> -> -> ->. reflexivity.
Qed.

Lemma flow_prospect_json_inj (p q : W.Prospect) :
  W.prospect_json p = W.prospect_json q -> p = q.
Proof.
  destruct p, q. unfold W.prospect_json. cbn.
  intros H. injection H as -> -> -> -> -> -> ->. reflexivity.
Qed.

Lemma array_inj (l l' : list json) : JArr l = JArr l' -> l = l'.
Proof. intros H. now injection H. Qed.

Lemma hub_prospects_json_inj (l l' : list P.Prospect) :
  P.prospects_json l = P.prospects_json l' -> l = l'.
Proof.
  unfold P.prospects_json. intros H. apply array_inj in H.
  revert H. apply map_injective. exact hub_prospect_json_inj.
Qed.

Lemma flow_prospects_json_inj (l l' : list W.Prospect) :
  W.prospects_json l = W.prospects_json l' -> l = l'.
Proof.
  unfold W.prospects_json. intros H. apply array_inj in H.
  revert H. apply map_injective. exact flow_prospect_json_inj.
Qed.

Lemma getItem_setItem (key value : string) (store : gmap string string) :
  getItem key (setItem key value store) = Some value.
Proof. unfold getItem, setItem. apply lookup_insert_eq. Qed.

Lemma stringify_array_truthy (elems : list json) :
  truthy (stringify (JArr elems)) = true.
Proof. reflexivity. Qed.

(** The second page absorbs a missing key and a text that is not JSON. *)
Lemma flow_load_absorbs (store : gmap string string) :
  getItem W.storage_key store = None
  \/ (exists s, getItem W.storage_key store = Some s /\ parse s = SyntaxError) ->
  W.loadProspects store = W.Value (JArr []).
Proof.
  unfold W.loadProspects. intros [-> | [s [-> Hs]]]; [reflexivity|].
  rewrite Hs. destruct (truthy s); reflexivity.
Qed.

(** The first page starts empty on a missing key or an empty text. *)
Lemma hub_load_missing (store : gmap string string) :
  getItem P.storage_key store = None \/ getItem P.storage_key store = Some "" ->
  P.loadProspects store = P.Value (JArr []).
Proof. unfold P.loadProspects. intros [-> | ->]; reflexivity. Qed.

(** On any other text that is not JSON, the first page lets the
    [SyntaxError] escape from its load effect. *)
Lemma hub_load_malformed (store : gmap string string) (s : string) :
  getItem P.storage_key store = Some s ->
  s <> "" ->
  parse s = SyntaxError ->
  P.loadProspects store = P.Uncaught.
Proof.
  unfold P.loadProspects. intros -> Hs Hparse.
  unfold truthy. rewrite (falsy_false s Hs), Hparse. reflexivity.
Qed.

(** C3 at the store content [{]: the first page does not start with the
    empty list, the [SyntaxError] of [JSON.parse] leaves its load effect
    uncaught; the second page, which parses inside [try]/[catch], starts
    with the empty list on the same content. *)
Theorem loadProspects_malformed_store :
  parse "{" = SyntaxError
  /\ P.loadProspects (setItem P.storage_key "{" ∅) = P.Uncaught
  /\ P.loadProspects (setItem P.storage_key "{" ∅) <> P.Value (JArr [])
  /\ W.loadProspects (setItem W.storage_key "{" ∅) = W.Value (JArr []).
Proof.
  split; [reflexivity|].
  assert (H : P.loadProspects (setItem P.storage_key "{" ∅) = P.Uncaught).
  { apply (hub_load_malformed _ "{").
    - apply getItem_setItem.
    - discriminate.
    - reflexivity. }
  split; [exact H|]. split.
  - rewrite H. discriminate.
  - apply flow_load_absorbs. right. exists "{".
    split; [apply getItem_setItem | reflexivity].
Qed.

Lemma hub_save_load (l : list P.Prospect) (store : gmap string string) :
  Forall (fun p => safe_integer (P.p_id p) = true) l ->
  P.loadProspects (P.saveProspects l store) = P.Value (P.prospects_json l).
Proof.
  intros Hl.
  unfold P.loadProspects, P.saveProspects. rewrite getItem_setItem.
  unfold P.prospects_json at 1. rewrite stringify_array_truthy.
  fold (P.prospects_json l).
  now rewrite (parse_stringify _ (hub_prospects_representable l Hl)).
Qed.

Lemma flow_save_load (l : list W.Prospect) (store : gmap string string) :
  W.loadProspects (W.saveProspects l store) = W.Value (W.prospects_json l).
Proof.
  unfold W.loadProspects, W.saveProspects. rewrite getItem_setItem.
  unfold W.prospects_json at 1. rewrite stringify_array_truthy.
  fold (W.prospects_json l).
  now rewrite (parse_stringify _ (flow_prospects_representable l)).
Qed.

(** After a prospect is logged, a page started on the store the save
    effect wrote finds the list that is in memory. *)
Lemma hub_log_then_load (now : Z) (st : P.State) (store : gmap string string) :
  P.firstName st <> "" -> P.company st <> "" -> P.email st <> "" ->
  safe_integer now = true ->
  Forall (fun p => safe_integer (P.p_id p) = true) (P.prospects st) ->
  P.loadProspects (snd (P.dispatch (P.handleLogProspect now st) st store))
    = P.Value (P.prospects_json
                 (P.prospects (fst (P.dispatch (P.handleLogProspect now st) st store)))).
Proof.
  intros Hf Hc He Hnow Hall.
  unfold P.dispatch, P.handleLogProspect.
  rewrite (falsy_three _ _ _ He Hf Hc).
  cbn [existsb P.sets_prospects orb fst snd fold_left P.apply P.prospects].
  apply hub_save_load. constructor; assumption.
Qed.

Lemma flow_log_then_load (now : Z) (iso : string) (st : W.State)
  (store : gmap string string) :
  W.firstName st <> "" -> W.company st <> "" -> W.verifiedEmail st <> "" ->
  W.loadProspects (snd (W.dispatch (W.handleLogProspect now iso st) st store))
    = W.Value (W.prospects_json
                 (W.prospects (fst (W.dispatch (W.handleLogProspect now iso st) st store)))).
Proof.
  intros Hf Hc He.
  unfold W.dispatch, W.handleLogProspect.
  rewrite (falsy_three _ _ _ Hf Hc He).
  cbn [existsb W.sets_prospects orb fst snd fold_left W.apply W.prospects].
  apply flow_save_load.
Qed.

(** C9: saving a list and loading it again, with the store untouched in
    between, gives the JSON array of the records' objects, in the order
    of the list and with every field value; that array determines the
    list. On the first page the ids are numbers, taken to be safe
    integers, as the values of [Date.now()] are. *)
Theorem save_load_round_trip :
  (forall (l : list P.Prospect) (store : gmap string string),
      Forall (fun p => safe_integer (P.p_id p) = true) l ->
      P.loadProspects (P.saveProspects l store) = P.Value (P.prospects_json l))
  /\
  (forall l l' : list P.Prospect, P.prospects_json l = P.prospects_json l' -> l = l')
  /\
  (forall (l : list W.Prospect) (store : gmap string string),
      W.loadProspects (W.saveProspects l store) = W.Value (W.prospects_json l))
  /\
  (forall l l' : list W.Prospect, W.prospects_json l = W.prospects_json l' -> l = l').
Proof.
  split; [| split; [| split]].
  - exact hub_save_load.
  - exact hub_prospects_json_inj.
  - exact flow_save_load.
  - exact flow_prospects_json_inj.
Qed.

Lemma save_load_round_trip_witness :
  P.loadProspects (P.saveProspects (P.prospects jane_hub) ∅)
    = P.Value (P.prospects_json (P.prospects jane_hub))
  /\ W.loadProspects (W.saveProspects (W.prospects jane_flow) ∅)
    = W.Value (W.prospects_json (W.prospects jane_flow)).
Proof.
  split.
  - apply (proj1 save_load_round_trip (P.prospects jane_hub) ∅).
    repeat constructor.
  - apply (proj1 (proj2 (proj2 save_load_round_trip)) (W.prospects jane_flow) ∅).
Defined.

End Persistence.

(** * Further properties of the two pages *)

(** ** The hub page, event by event *)
Section HubSteps.

(** What one event does to the list and to the store. *)
Lemma hub_step_effect (e : HE.Event) (st : P.State) (store : gmap string string) :
  P.prospects (fst (HE.step e (st, store))) = hub_next_list e st
  /\ snd (HE.step e (st, store))
     = if HE.replaces_list e st
       then P.saveProspects (hub_next_list e st) store
       else store.
Proof.
  destruct e; cbn [HE.step HE.calls fst snd HE.replaces_list hub_next_list];
    unfold P.dispatch; try (split; reflexivity).
  - unfold P.handleMagicSearch.
    destruct (String.eqb service "linkedin"); [split; reflexivity|].
    destruct (String.eqb service "google"); [split; reflexivity|].
    destruct (String.eqb service "domain"); split; reflexivity.
  - unfold P.handleLogProspect.
    destruct (falsy (P.email st) || falsy (P.firstName st) || falsy (P.company st));
      split; reflexivity.
  - unfold P.exportToCSV.
    destruct (P.prospects st) eqn:E; cbn; rewrite E; split; reflexivity.
  - destruct confirmed; split; reflexivity.
Qed.

Lemma hub_step_list (e : HE.Event) (page : P.State * gmap string string) :
  P.prospects (fst (HE.step e page)) = hub_next_list e (fst page).
Proof. destruct page as [st store]. apply hub_step_effect. Qed.

Lemma hub_step_store (e : HE.Event) (page : P.State * gmap string string) :
  snd (HE.step e page)
  = if HE.replaces_list e (fst page)
    then P.saveProspects (hub_next_list e (fst page)) (snd page)
    else snd page.
Proof. destruct page as [st store]. apply hub_step_effect. Qed.

Lemma hub_next_list_unchanged (e : HE.Event) (st : P.State) :
  HE.replaces_list e st = false -> hub_next_list e st = P.prospects st.
Proof.
  destruct e; cbn [HE.replaces_list hub_next_list]; try reflexivity.
  - intros ->. reflexivity.
  - discriminate.
  - intros ->. reflexivity.
Qed.

End HubSteps.

(** ** Deleting and updating records on the hub page *)
Section HubRecords.

Lemma filter_id_absent (id : Z) (l : list P.Prospect) :
  Forall (fun p => P.p_id p <> id)
    (List.filter (fun p => negb (P.p_id p =? id)) l).
Proof.
  induction l as [|q l IH]; cbn [List.filter]; [constructor|].
  destruct (Z.eqb_spec (P.p_id q) id) as [E | E]; cbn [negb]; [exact IH|].
  constructor; assumption.
Qed.

Lemma filter_id_sublist (id : Z) (l : list P.Prospect) :
  sublist (List.filter (fun p => negb (P.p_id p =? id)) l) l.
Proof.
  induction l as [|q l IH]; cbn [List.filter]; [constructor|].
  destruct (negb (P.p_id q =? id)); now constructor.
Qed.

(** X1: a declined confirmation leaves page and store as they were, also
    when the id is present. A confirmed deletion removes every record
    that carries the id and nothing else: the records kept are exactly
    those with another id, in their previous order, the form is not
    touched, and the save effect writes the new list. *)
Theorem hub_delete_removes_id :
  (forall (id : Z) (page : P.State * gmap string string),
      HE.step (HE.ClickDelete false id) page = page)
  /\
  (forall (id : Z) (st : P.State) (store : gmap string string),
      let page' := HE.step (HE.ClickDelete true id) (st, store) in
      Forall (fun p => P.p_id p <> id) (P.prospects (fst page')) /\
      (forall p : P.Prospect,
          In p (P.prospects (fst page')) <-> In p (P.prospects st) /\ P.p_id p <> id) /\
      sublist (P.prospects (fst page')) (P.prospects st) /\
      fst page' = P.apply st (P.setProspects (P.prospects (fst page'))) /\
      snd page' = P.saveProspects (P.prospects (fst page')) store).
Proof.
  split.
  - intros id [st store]. reflexivity.
  - intros id st store. cbn zeta.
    change (HE.step (HE.ClickDelete true id) (st, store))
      with (P.apply st (P.setProspects
                          (List.filter (fun p => negb (P.p_id p =? id)) (P.prospects st))),
            P.saveProspects
              (List.filter (fun p => negb (P.p_id p =? id)) (P.prospects st)) store).
    cbn [fst snd P.apply P.prospects].
    split; [apply filter_id_absent|].
    split.
    { intros p. rewrite filter_In. rewrite negb_true_iff, Z.eqb_neq. tauto. }
    split; [apply filter_id_sublist|].
    split; reflexivity.
Qed.

(** X2: when the ids of the list are pairwise distinct and the id is
    present, a confirmed deletion takes out exactly one record, the one
    with that id, and the list is one shorter. *)
Theorem hub_delete_unique_id (id : Z) (st : P.State) (store : gmap string string) :
  NoDup (HE.ids st) ->
  In id (HE.ids st) ->
  exists (before : list P.Prospect) (p : P.Prospect) (after : list P.Prospect),
    P.prospects st = before ++ p :: after /\
    P.p_id p = id /\
    P.prospects (fst (HE.step (HE.ClickDelete true id) (st, store))) = before ++ after /\
    S (length (P.prospects (fst (HE.step (HE.ClickDelete true id) (st, store)))))
      = length (P.prospects st).
Proof.
  rewrite hub_step_list. cbn [hub_next_list fst]. unfold HE.ids.
  induction (P.prospects st) as [|q l IH]; intros Hnd Hin; [destruct Hin|].
  cbn [map] in Hnd, Hin. apply NoDup_cons in Hnd as [Hq Hnd].
  cbn [List.filter].
  destruct (Z.eqb_spec (P.p_id q) id) as [E | E]; cbn [negb].
  - exists [], q, l. subst id.
    assert (Hl : Forall (fun p => P.p_id p <> P.p_id q) l).
    { apply List.Forall_forall. intros p Hp Heq. apply Hq.
      rewrite <- Heq. apply list_elem_of_In. apply in_map. exact Hp. }
    rewrite (filter_other_ids _ _ Hl). repeat split; reflexivity.
  - destruct Hin as [Hin | Hin]; [congruence|].
    destruct (IH Hnd Hin) as (before & p & after & Hl & Hp & Hf & Hlen).
    exists (q :: before), p, after.
    split; [now rewrite Hl|]. split; [exact Hp|].
    split; [now rewrite Hf|].
    cbn [length]. now rewrite Hlen.
Qed.

Lemma hub_delete_unique_id_witness :
  exists (before : list P.Prospect) (p : P.Prospect) (after : list P.Prospect),
    P.prospects two_prospect_hub = before ++ p :: after /\
    P.p_id p = 1 /\
    P.prospects (fst (HE.step (HE.ClickDelete true 1) (two_prospect_hub, ∅)))
      = before ++ after /\
    S (length (P.prospects (fst (HE.step (HE.ClickDelete true 1) (two_prospect_hub, ∅)))))
      = length (P.prospects two_prospect_hub).
Proof.
  apply (hub_delete_unique_id 1 two_prospect_hub ∅).
  - cbn. apply NoDup_cons. split; [|apply NoDup_singleton].
    intros H. apply list_elem_of_singleton in H. discriminate H.
  - cbn. auto.
Defined.

End HubRecords.

(** ** How status updates compose *)
Section HubStatus.

Let upd (id : Z) (s : string) : P.Prospect -> P.Prospect :=
  fun p => if P.p_id p =? id then P.with_status s p else p.

Lemma hub_select_step (id : Z) (s : string) (st : P.State)
  (store : gmap string string) :
  HE.step (HE.SelectStatus id s) (st, store)
  = (P.apply st (P.setProspects (map (upd id s) (P.prospects st))),
     P.saveProspects (map (upd id s) (P.prospects st)) store).
Proof. reflexivity. Qed.

Lemma hub_delete_step (id : Z) (st : P.State) (store : gmap string string) :
  HE.step (HE.ClickDelete true id) (st, store)
  = (P.apply st (P.setProspects
                   (List.filter (fun p => negb (P.p_id p =? id)) (P.prospects st))),
     P.saveProspects
       (List.filter (fun p => negb (P.p_id p =? id)) (P.prospects st)) store).
Proof. reflexivity. Qed.

Lemma saveProspects_twice (a b : list P.Prospect) (store : gmap string string) :
  P.saveProspects b (P.saveProspects a store) = P.saveProspects b store.
Proof. unfold P.saveProspects, setItem. apply insert_insert_eq. Qed.

Lemma upd_same_id (id : Z) (s1 s2 : string) (p : P.Prospect) :
  upd id s2 (upd id s1 p) = upd id s2 p.
Proof.
  unfold upd. destruct (P.p_id p =? id) eqn:E; cbn [P.with_status P.p_id].
  - rewrite E. reflexivity.
  - rewrite E. reflexivity.
Qed.

Lemma upd_other_id (id1 id2 : Z) (s1 s2 : string) (p : P.Prospect) :
  id1 <> id2 ->
  upd id2 s2 (upd id1 s1 p) = upd id1 s1 (upd id2 s2 p).
Proof.
  intros Hne. unfold upd.
  destruct (P.p_id p =? id1) eqn:E1; destruct (P.p_id p =? id2) eqn:E2;
    cbn [P.with_status P.p_id]; rewrite ?E1, ?E2; try reflexivity.
  apply Z.eqb_eq in E1, E2. congruence.
Qed.

Lemma filter_after_upd (id : Z) (s : string) (l : list P.Prospect) :
  List.filter (fun p => negb (P.p_id p =? id)) (map (upd id s) l)
  = List.filter (fun p => negb (P.p_id p =? id)) l.
Proof.
  induction l as [|q l IH]; [reflexivity|].
  cbn [map List.filter]. rewrite IH. unfold upd at 1 2.
  destruct (P.p_id q =? id) eqn:E; cbn [P.with_status P.p_id]; rewrite E;
    reflexivity.
Qed.

(** X3: on one record the status selected last wins, selections on
    records with different ids can be made in either order, and a
    confirmed deletion after a selection on the same id gives the page and
    the store that the deletion alone gives. *)
Theorem hub_status_composition :
  (forall (id : Z) (s1 s2 : string) (page : P.State * gmap string string),
      HE.run [HE.SelectStatus id s1; HE.SelectStatus id s2] page
      = HE.run [HE.SelectStatus id s2] page)
  /\
  (forall (id1 id2 : Z) (s1 s2 : string) (page : P.State * gmap string string),
      id1 <> id2 ->
      HE.run [HE.SelectStatus id1 s1; HE.SelectStatus id2 s2] page
      = HE.run [HE.SelectStatus id2 s2; HE.SelectStatus id1 s1] page)
  /\
  (forall (id : Z) (s : string) (page : P.State * gmap string string),
      HE.run [HE.SelectStatus id s; HE.ClickDelete true id] page
      = HE.run [HE.ClickDelete true id] page).
Proof.
  split; [| split].
  - intros id s1 s2 [st store]. cbn [HE.run].
    rewrite !hub_select_step. cbn [P.apply P.prospects].
    rewrite saveProspects_twice, List.map_map.
    rewrite (List.map_ext _ _ (upd_same_id id s1 s2)). reflexivity.
  - intros id1 id2 s1 s2 [st store] Hne. cbn [HE.run].
    rewrite !hub_select_step. cbn [P.apply P.prospects].
    rewrite !saveProspects_twice, !List.map_map.
    rewrite (List.map_ext _ _ (fun p => upd_other_id id1 id2 s1 s2 p Hne)).
    reflexivity.
  - intros id s [st store]. cbn [HE.run].
    rewrite hub_select_step, !hub_delete_step. cbn [P.apply P.prospects].
    rewrite saveProspects_twice, filter_after_upd. reflexivity.
Qed.

Lemma hub_status_composition_witness :
  HE.run [HE.SelectStatus 1 "Closed"; HE.SelectStatus 2 "Replied"] (two_prospect_hub, ∅)
  = HE.run [HE.SelectStatus 2 "Replied"; HE.SelectStatus 1 "Closed"] (two_prospect_hub, ∅).
Proof.
  apply (proj1 (proj2 hub_status_composition) 1 2 "Closed" "Replied"
           (two_prospect_hub, ∅)).
  discriminate.
Defined.

End HubStatus.

(** ** What every run of the hub page keeps *)
Section HubInvariants.

Lemma hub_run_invariant (Inv : P.State * gmap string string -> Prop) :
  (forall e page, Inv page -> Inv (HE.step e page)) ->
  forall events page, Inv page -> Inv (HE.run events page).
Proof.
  intros Hstep events. induction events as [|e rest IH]; intros page H.
  - exact H.
  - cbn [HE.run]. apply IH, Hstep, H.
Qed.

Lemma hub_next_list_complete (e : HE.Event) (st : P.State) :
  Forall HE.complete (P.prospects st) ->
  Forall HE.complete (hub_next_list e st).
Proof.
  intros H. destruct e; cbn [hub_next_list HE.replaces_list]; try exact H.
  - destruct (falsy (P.email st)) eqn:Ee; [exact H|].
    destruct (falsy (P.firstName st)) eqn:Ef; [exact H|].
    destruct (falsy (P.company st)) eqn:Ec; [exact H|].
    cbn [orb negb]. constructor; [|exact H].
    unfold HE.complete, P.newProspect. cbn.
    repeat split; intros E; rewrite E in *; discriminate.
  - induction H as [|p l Hp _ IH]; cbn [map]; constructor; [|exact IH].
    destruct (P.p_id p =? id); [|exact Hp]. exact Hp.
  - destruct confirmed; [|exact H].
    induction H as [|p l Hp _ IH]; cbn [List.filter]; [constructor|].
    destruct (negb (P.p_id p =? id)); [constructor; assumption | exact IH].
Qed.

(** X4: no sequence of events puts an incomplete record in the list: if
    every record has a first name, a company and an email, this is still
    so after any events, whatever their order and their values. *)
Theorem hub_records_stay_complete
  (events : list HE.Event) (page : P.State * gmap string string) :
  Forall HE.complete (P.prospects (fst page)) ->
  Forall HE.complete (P.prospects (fst (HE.run events page))).
Proof.
  apply (hub_run_invariant (fun pg => Forall HE.complete (P.prospects (fst pg)))).
  intros e pg H. rewrite hub_step_list. now apply hub_next_list_complete.
Qed.

Lemma hub_records_stay_complete_witness :
  Forall HE.complete
    (P.prospects
       (fst (HE.run [ HE.Submit 5; HE.ChangeFirstName "Jo"; HE.Submit 6;
                      HE.ChangeCompany "Acme"; HE.ChangeEmail "jo@acme.com";
                      HE.Submit 7; HE.SelectStatus 7 "Closed";
                      HE.ClickDelete true 2 ]
               (two_prospect_hub, ∅)))).
Proof.
  apply hub_records_stay_complete.
  repeat constructor; discriminate.
Defined.

Lemma ids_after_update (id : Z) (s : string) (l : list P.Prospect) :
  map P.p_id (map (fun p => if P.p_id p =? id then P.with_status s p else p) l)
  = map P.p_id l.
Proof.
  rewrite List.map_map. apply List.map_ext.
  intros p. destruct (P.p_id p =? id); reflexivity.
Qed.

Lemma ids_after_filter (id : Z) (l : list P.Prospect) :
  NoDup (map P.p_id l) ->
  NoDup (map P.p_id (List.filter (fun p => negb (P.p_id p =? id)) l)).
Proof.
  induction l as [|q l IH]; cbn [map List.filter]; [auto|].
  intros H. apply NoDup_cons in H as [Hq Hl].
  destruct (negb (P.p_id q =? id)); [|auto].
  cbn [map]. apply NoDup_cons. split; [|auto].
  intros Hin. apply Hq.
  apply list_elem_of_In in Hin. apply list_elem_of_In.
  apply in_map_iff in Hin as (p & Hp & Hin). apply filter_In in Hin as [Hin _].
  apply in_map_iff. eauto.
Qed.

Lemma existsb_eqb_false (x : Z) (l : list Z) :
  existsb (Z.eqb x) l = false -> ~ In x l.
Proof.
  intros H Hin.
  assert (E : existsb (Z.eqb x) l = true).
  { apply existsb_exists. exists x. split; [exact Hin | apply Z.eqb_refl]. }
  congruence.
Qed.

(** X5: the ids of the list stay pairwise distinct as long as every
    submit comes with a clock value that no record carries yet; status
    selections and deletions never break this. *)
Theorem hub_ids_stay_distinct
  (events : list HE.Event) (page : P.State * gmap string string) :
  NoDup (HE.ids (fst page)) ->
  HE.fresh_clock events page = true ->
  NoDup (HE.ids (fst (HE.run events page))).
Proof.
  revert page. induction events as [|e rest IH]; intros page Hnd Hfresh.
  - exact Hnd.
  - cbn [HE.run HE.fresh_clock] in *.
    apply andb_prop in Hfresh as [He Hrest].
    apply IH; [| exact Hrest].
    unfold HE.ids in *. rewrite hub_step_list.
    destruct e; cbn [hub_next_list]; try exact Hnd.
    + destruct (HE.replaces_list (HE.Submit now) (fst page)); [|exact Hnd].
      cbn [map P.newProspect P.p_id]. apply NoDup_cons. split; [|exact Hnd].
      apply negb_true_iff, existsb_eqb_false in He.
      intros Hin. apply He. now apply list_elem_of_In.
    + now rewrite ids_after_update.
    + destruct confirmed; [|exact Hnd]. now apply ids_after_filter.
Qed.

Lemma hub_ids_stay_distinct_witness :
  NoDup (HE.ids (fst (HE.run [ HE.Submit 5; HE.SelectStatus 1 "Closed";
                               HE.ClickDelete true 2 ]
                        (two_prospect_hub, ∅)))).
Proof.
  apply hub_ids_stay_distinct.
  - cbn. apply NoDup_cons. split; [|apply NoDup_singleton].
    intros H. apply list_elem_of_singleton in H. discriminate H.
  - reflexivity.
Defined.

End HubInvariants.

(** ** Statuses, the store and the form on the hub page *)
Section HubStore.

Lemma existsb_string_In (x : string) (l : list string) :
  existsb (String.eqb x) l = true -> In x l.
Proof.
  intros H. apply existsb_exists in H as (y & Hy & E).
  apply String.eqb_eq in E. now subst y.
Qed.

(** X6: along the events the page offers, every record's status is one of
    the five the selector lists: a new record starts as "Not Contacted"
    and the selector only hands over its own options. *)
Theorem hub_statuses_stay_listed
  (events : list HE.Event) (page : P.State * gmap string string) :
  Forall (fun p => In (P.p_status p) P.statuses) (P.prospects (fst page)) ->
  HE.offered_all events page = true ->
  Forall (fun p => In (P.p_status p) P.statuses)
    (P.prospects (fst (HE.run events page))).
Proof.
  revert page. induction events as [|e rest IH]; intros page H Hoff.
  - exact H.
  - cbn [HE.run HE.offered_all] in *.
    apply andb_prop in Hoff as [He Hrest].
    apply IH; [| exact Hrest].
    rewrite hub_step_list.
    destruct e; cbn [hub_next_list]; try exact H.
    + destruct (HE.replaces_list (HE.Submit now) (fst page)); [|exact H].
      constructor; [|exact H]. cbn. auto.
    + cbn [HE.offered] in He. apply andb_prop in He as [_ Hs].
      apply existsb_string_In in Hs.
      induction H as [|p l Hp _ IHl]; cbn [map]; constructor; [|exact IHl].
      destruct (P.p_id p =? id); [exact Hs | exact Hp].
    + destruct confirmed; [|exact H].
      induction H as [|p l Hp _ IHl]; cbn [List.filter]; [constructor|].
      destruct (negb (P.p_id p =? id)); [constructor; assumption | exact IHl].
Qed.

Lemma hub_statuses_stay_listed_witness :
  Forall (fun p => In (P.p_status p) P.statuses)
    (P.prospects
       (fst (HE.run [ HE.Submit 5; HE.SelectStatus 5 "Meeting Set";
                      HE.ClickMagicSearch "google"; HE.ClickDelete true 1 ]
               (two_prospect_hub, ∅)))).
Proof.
  apply hub_statuses_stay_listed.
  - apply List.Forall_cons; [cbn; auto 10|].
    apply List.Forall_cons; [cbn; auto 10|].
    apply List.Forall_nil.
  - reflexivity.
Defined.

Lemma hub_step_synced (e : HE.Event) (page : P.State * gmap string string) :
  HE.synced page -> HE.synced (HE.step e page).
Proof.
  unfold HE.synced. intros H.
  rewrite hub_step_list, hub_step_store.
  destruct (HE.replaces_list e (fst page)) eqn:E.
  - apply getItem_setItem.
  - now rewrite (hub_next_list_unchanged e (fst page) E).
Qed.

(** X7: once the store holds the text of the list, it holds the text of
    the list after every further event; a page loaded from that store then
    finds exactly the list that was in memory (the ids being safe
    integers). *)
Theorem hub_store_follows_list
  (events : list HE.Event) (page : P.State * gmap string string) :
  HE.synced page ->
  HE.synced (HE.run events page) /\
  (Forall (fun p => safe_integer (P.p_id p) = true)
     (P.prospects (fst (HE.run events page))) ->
   P.loadProspects (snd (HE.run events page))
   = P.Value (P.prospects_json (P.prospects (fst (HE.run events page))))).
Proof.
  intros H.
  assert (Hs : HE.synced (HE.run events page)).
  { revert H. apply hub_run_invariant. exact hub_step_synced. }
  split; [exact Hs|].
  intros Hsafe. unfold HE.synced in Hs. unfold P.loadProspects. rewrite Hs.
  unfold P.prospects_json at 1. rewrite stringify_array_truthy.
  fold (P.prospects_json (P.prospects (fst (HE.run events page)))).
  now rewrite (parse_stringify _ (hub_prospects_representable _ Hsafe)).
Qed.

Lemma hub_store_follows_list_witness :
  HE.synced (HE.run [ HE.ChangeTitle "CEO"; HE.Submit 5; HE.ClickDelete true 1 ]
               (HE.step (HE.SelectStatus 1 "Closed") (two_prospect_hub, ∅))).
Proof.
  apply (hub_store_follows_list
           [ HE.ChangeTitle "CEO"; HE.Submit 5; HE.ClickDelete true 1 ]
           (HE.step (HE.SelectStatus 1 "Closed") (two_prospect_hub, ∅))).
  apply getItem_setItem.
Defined.

(** X8: the page writes one key only, and only when the list is replaced:
    every other key of the store keeps its value through any events, and
    an event that is not an accepted submit, a status selection or a
    confirmed deletion leaves the list and the whole store as they were. *)
Theorem hub_store_frame :
  (forall (events : list HE.Event) (page : P.State * gmap string string)
          (key : string),
      key <> P.storage_key ->
      getItem key (snd (HE.run events page)) = getItem key (snd page))
  /\
  (forall (e : HE.Event) (page : P.State * gmap string string),
      HE.replaces_list e (fst page) = false ->
      P.prospects (fst (HE.step e page)) = P.prospects (fst page)
      /\ snd (HE.step e page) = snd page).
Proof.
  split.
  - intros events page key Hkey. revert page.
    induction events as [|e rest IH]; intros page; [reflexivity|].
    cbn [HE.run]. rewrite IH, hub_step_store.
    destruct (HE.replaces_list e (fst page)); [|reflexivity].
    unfold P.saveProspects, getItem, setItem.
    apply lookup_insert_ne. congruence.
  - intros e page H.
    rewrite hub_step_list, hub_step_store, H.
    split; [now apply hub_next_list_unchanged | reflexivity].
Qed.

Lemma hub_store_frame_witness :
  getItem "workflowProspects"
    (snd (HE.run [HE.Submit 5; HE.ClickDelete true 1]
            (two_prospect_hub, setItem "workflowProspects" "[]" ∅)))
  = getItem "workflowProspects" (setItem "workflowProspects" "[]" ∅)
  /\ snd (HE.step HE.ClickExport (two_prospect_hub, ∅)) = ∅.
Proof.
  split.
  - apply (proj1 hub_store_frame [HE.Submit 5; HE.ClickDelete true 1]
             (two_prospect_hub, setItem "workflowProspects" "[]" ∅)
             "workflowProspects").
    discriminate.
  - apply (proj2 hub_store_frame HE.ClickExport (two_prospect_hub, ∅)).
    reflexivity.
Defined.

(** X9: an accepted submit empties the form (and the guesses and the
    draft), so a second submit right after it is refused: it only raises
    the alert, and the list has grown by one record, not two. *)
Theorem hub_submit_twice (now later : Z) (st : P.State) (store : gmap string string) :
  P.firstName st <> "" -> P.company st <> "" -> P.email st <> "" ->
  let page' := HE.step (HE.Submit now) (st, store) in
  fst page' =
    P.mkState "" "" "" "" "" "" (P.newProspect now st :: P.prospects st)
      (P.showHelpers st) "" ""
  /\ HE.calls (HE.Submit later) (fst page') = [P.alert P.log_alert]
  /\ HE.run [HE.Submit now; HE.Submit later] (st, store) = page'.
Proof.
  intros Hf Hc He. cbn zeta.
  assert (E : HE.step (HE.Submit now) (st, store)
              = (P.mkState "" "" "" "" "" "" (P.newProspect now st :: P.prospects st)
                   (P.showHelpers st) "" "",
                 P.saveProspects (P.newProspect now st :: P.prospects st) store)).
  { cbn [HE.step HE.calls fst snd]. unfold P.handleLogProspect.
    rewrite (falsy_three _ _ _ He Hf Hc). reflexivity. }
  cbn [HE.run]. rewrite E. repeat split.
Qed.

Lemma hub_submit_twice_witness :
  HE.run [HE.Submit 5; HE.Submit 6] (two_prospect_hub, ∅)
  = HE.step (HE.Submit 5) (two_prospect_hub, ∅).
Proof.
  apply (hub_submit_twice 5 6 two_prospect_hub ∅); discriminate.
Defined.

End HubStore.

(** ** Search windows and email guesses on the hub page *)
Section HubDerived.

Import ProspectingHub.



Lemma lower_unit_idempotent (c : ascii) : lower_unit (lower_unit c) = lower_unit c.
Proof. destruct c as [[] [] [] [] [] [] [] []]; reflexivity. Qed.

Lemma toLowerCase_idempotent (s : string) : toLowerCase (toLowerCase s) = toLowerCase s.
Proof.
  induction s as [|c s IH]; [reflexivity|].
  cbn [toLowerCase]. now rewrite lower_unit_idempotent, IH.
Qed.

Lemma toLowerCase_append (a b : string) :
  toLowerCase (a +:+ b) = toLowerCase a +:+ toLowerCase b.
Proof.
  induction a as [|c a IH]; [reflexivity|].
  cbn [toLowerCase append]. now rewrite IH.
Qed.

Lemma falsy_toLowerCase (s : string) : falsy (toLowerCase s) = falsy s.
Proof. destruct s; reflexivity. Qed.

(** X11: the guesses do not depend on the case of the names: lowercased
    names give the same result as the names as typed, also when a name
    is empty. The domain is used as typed. *)
Theorem generateAIGuesses_ignores_case (f l d : string) :
  generateAIGuesses (toLowerCase f) (toLowerCase l) d = generateAIGuesses f l d.
Proof.
  unfold generateAIGuesses, patterns.
  now rewrite !falsy_toLowerCase, !toLowerCase_idempotent.
Qed.

(** X12: for non-empty names every one of the ten candidates is a
    non-empty local part followed by [@] and the domain as typed, and the
    local part is in lower case. *)
Theorem patterns_local_parts (f l d : string) :
  f <> "" -> l <> "" ->
  Forall (fun s => exists local : string,
              s = local +:+ "@" +:+ d /\ local <> "" /\ toLowerCase local = local)
    (patterns f l d).
Proof.
  intros Hf Hl.
  destruct f as [|c1 f']; [congruence|]. destruct l as [|c2 l']; [congruence|].
  unfold patterns.
  cbn [toLowerCase index0 or_empty interpolate falsy].
  set (a := lower_unit c1). set (b := lower_unit c2).
  set (fn := toLowerCase f'). set (ln := toLowerCase l').
  assert (La : lower_unit a = a) by apply lower_unit_idempotent.
  assert (Lb : lower_unit b = b) by apply lower_unit_idempotent.
  assert (Lf : toLowerCase fn = fn) by apply toLowerCase_idempotent.
  assert (Ll : toLowerCase ln = ln) by apply toLowerCase_idempotent.
  repeat apply List.Forall_cons; try apply List.Forall_nil.
  - exists (String a fn +:+ "." +:+ String b ln).
    rewrite !append_assoc. repeat split; [discriminate|].
    rewrite !toLowerCase_append. cbn [toLowerCase]. now rewrite La, Lb, Lf, Ll.
  - exists (String a "" +:+ String b ln).
    rewrite !append_assoc. repeat split; [discriminate|].
    rewrite !toLowerCase_append. cbn [toLowerCase]. now rewrite La, Lb, Ll.
  - exists (String a fn +:+ String b "").
    rewrite !append_assoc. repeat split; [discriminate|].
    rewrite !toLowerCase_append. cbn [toLowerCase]. now rewrite La, Lb, Lf.
  - exists (String a fn). repeat split; [discriminate|].
    cbn [toLowerCase]. now rewrite La, Lf.
  - exists (String b ln). repeat split; [discriminate|].
    cbn [toLowerCase]. now rewrite Lb, Ll.
  - exists (String a fn +:+ "_" +:+ String b ln).
    rewrite !append_assoc. repeat split; [discriminate|].
    rewrite !toLowerCase_append. cbn [toLowerCase]. now rewrite La, Lb, Lf, Ll.
  - exists (String a "" +:+ "." +:+ String b ln).
    rewrite !append_assoc. repeat split; [discriminate|].
    rewrite !toLowerCase_append. cbn [toLowerCase]. now rewrite La, Lb, Ll.
  - exists (String a fn +:+ String b ln).
    rewrite !append_assoc. repeat split; [discriminate|].
    rewrite !toLowerCase_append. cbn [toLowerCase]. now rewrite La, Lb, Lf, Ll.
  - exists (String b ln +:+ "." +:+ String a fn).
    rewrite !append_assoc. repeat split; [discriminate|].
    rewrite !toLowerCase_append. cbn [toLowerCase]. now rewrite La, Lb, Lf, Ll.
  - exists (String a "" +:+ String b "").
    rewrite !append_assoc. repeat split; [discriminate|].
    rewrite !toLowerCase_append. cbn [toLowerCase]. now rewrite La, Lb.
Qed.

Lemma patterns_local_parts_witness :
  Forall (fun s => exists local : string,
              s = local +:+ "@" +:+ "Example.COM" /\ local <> ""
              /\ toLowerCase local = local)
    (patterns "McAdam" "O'Hara" "Example.COM").
Proof. apply (patterns_local_parts "McAdam" "O'Hara" "Example.COM"); discriminate. Defined.

(** X13: the load effect of the hub page lets an error escape exactly
    when the key holds a non-empty text that is not JSON; a missing key,
    an empty text and any well-formed text never do. *)
Theorem hub_load_uncaught_iff (store : gmap string string) :
  loadProspects store = Uncaught <->
  exists s : string,
    getItem storage_key store = Some s /\ s <> "" /\ parse s = SyntaxError.
Proof.
  unfold loadProspects. split.
  - destruct (getItem storage_key store) as [s|] eqn:E; [|discriminate].
    destruct s as [|c s']; [discriminate|].
    cbn [truthy falsy negb].
    destruct (parse (String c s')) eqn:Ep; try discriminate.
    intros _. exists (String c s'). repeat split; [discriminate | exact Ep].
  - intros (s & -> & Hs & Hp).
    unfold truthy. rewrite (falsy_false s Hs), Hp. reflexivity.
Qed.

End HubDerived.

(** ** The workflow page, event by event *)
Section FlowSteps.

Import WorkflowHelper.

(** X14: [generateSearchUrl] returns [null] in two cases only: the email
    finder is asked for with an empty domain, or the service is none of
    the three it knows. The two other searches always give an address,
    also for an empty form. *)
Theorem generateSearchUrl_null_iff (service f l c d : string) :
  generateSearchUrl service f l c d = None <->
  (service = "experte" /\ d = "")
  \/ (service <> "google_company" /\ service <> "linkedin" /\ service <> "experte").
Proof.
  unfold generateSearchUrl.
  destruct (String.eqb_spec service "google_company") as [-> | H1].
  { split; [discriminate|]. intros [[E _] | [E _]]; [discriminate E | congruence]. }
  destruct (String.eqb_spec service "linkedin") as [-> | H2].
  { split; [discriminate|]. intros [[E _] | [_ [E _]]]; [discriminate E | congruence]. }
  destruct (String.eqb_spec service "experte") as [-> | H3].
  - destruct d as [|x d']; cbn [falsy].
    + split; [intros _; now left | reflexivity].
    + split; [discriminate|].
      intros [[_ E] | [_ [_ E]]]; [discriminate E | congruence].
  - split; [intros _; now right | reflexivity].
Qed.

Lemma generateSearchUrl_truthy (service f l c d url : string) :
  generateSearchUrl service f l c d = Some url -> truthy url = true.
Proof.
  unfold generateSearchUrl.
  destruct (String.eqb service "google_company"); [intros [= <-]; reflexivity|].
  destruct (String.eqb service "linkedin"); [intros [= <-]; reflexivity|].
  destruct (String.eqb service "experte"); [|discriminate].
  destruct (falsy d); [discriminate|]. intros [= <-]. reflexivity.
Qed.

(** An offered search has an address, and [handleSearch] opens it. *)
Lemma flow_offered_search_calls (service : string) (st : State) :
  FE.offered (FE.ClickSearch service) st = true ->
  exists url : string,
    generateSearchUrl service (firstName st) (lastName st) (company st)
      (companyDomain st) = Some url
    /\ handleSearch service st = [window_open url "_blank"].
Proof.
  cbn [FE.offered]. intros H.
  assert (Hurl : exists url,
             generateSearchUrl service (firstName st) (lastName st) (company st)
               (companyDomain st) = Some url).
  { unfold generateSearchUrl.
    destruct (String.eqb service "google_company"); [eauto|].
    destruct (String.eqb service "linkedin"); [eauto|].
    destruct (String.eqb service "experte"); [|discriminate H].
    cbn [orb andb] in H. unfold truthy in H.
    destruct (falsy (companyDomain st)); [discriminate H | eauto]. }
  destruct Hurl as [url Hurl]. exists url. split; [exact Hurl|].
  unfold handleSearch.
  now rewrite Hurl, (generateSearchUrl_truthy _ _ _ _ _ _ Hurl).
Qed.

Lemma flow_offered_search_step (service : string)
  (page : State * gmap string string) :
  FE.offered (FE.ClickSearch service) (fst page) = true ->
  FE.step (FE.ClickSearch service) page = page.
Proof.
  destruct page as [st store]. cbn [fst]. intros H.
  destruct (flow_offered_search_calls service st H) as (url & _ & Hs).
  unfold FE.step. cbn [FE.calls fst snd]. rewrite Hs. reflexivity.
Qed.

(** X15: every search the page offers opens exactly one window, on the
    address [generateSearchUrl] gives, and changes neither the page nor
    the store. The email-finder button is disabled while the domain is
    empty, so the "Company Domain" message of [handleSearch] is never set
    by a click the page offers. *)
Theorem flow_offered_search_opens (service : string)
  (page : State * gmap string string) :
  FE.offered (FE.ClickSearch service) (fst page) = true ->
  (exists url : string,
      generateSearchUrl service (firstName (fst page)) (lastName (fst page))
        (company (fst page)) (companyDomain (fst page)) = Some url /\
      url <> "" /\
      handleSearch service (fst page) = [window_open url "_blank"])
  /\ FE.step (FE.ClickSearch service) page = page.
Proof.
  intros H. split.
  - destruct (flow_offered_search_calls service (fst page) H) as (url & Hurl & Hs).
    exists url. split; [exact Hurl|]. split; [|exact Hs].
    pose proof (generateSearchUrl_truthy _ _ _ _ _ _ Hurl) as Ht.
    intros ->. discriminate Ht.
  - destruct page as [st store]. cbn [fst] in H.
    destruct (flow_offered_search_calls service st H) as (url & _ & Hs).
    unfold FE.step. cbn [FE.calls fst snd]. rewrite Hs. reflexivity.
Qed.

Lemma flow_offered_search_opens_witness :
  FE.step (FE.ClickSearch "experte") (jane_flow, ∅) = (jane_flow, ∅).
Proof.
  apply (proj2 (flow_offered_search_opens "experte" (jane_flow, ∅) eq_refl)).
Defined.

(** What one event does to the list, the error line and the store. *)
Lemma flow_step_effect (e : FE.Event) (st : State) (store : gmap string string) :
  FE.offered e st = true ->
  prospects (fst (FE.step e (st, store)))
  = match e with
    | FE.Submit now iso =>
        if flow_accepts st then newProspect now iso st :: prospects st
        else prospects st
    | _ => prospects st
    end
  /\ error (fst (FE.step e (st, store)))
     = match e with
       | FE.Submit _ _ => if flow_accepts st then None else Some log_error
       | _ => error st
       end
  /\ snd (FE.step e (st, store))
     = match e with
       | FE.Submit now iso =>
           if flow_accepts st
           then saveProspects (newProspect now iso st :: prospects st) store
           else store
       | _ => store
       end.
Proof.
  intros Hoff.
  destruct e; try (repeat split; reflexivity).
  - pose proof (flow_offered_search_step service (st, store) Hoff) as E.
    rewrite E. repeat split; reflexivity.
  - unfold FE.step, flow_accepts. cbn [FE.calls fst snd].
    unfold handleLogProspect, dispatch.
    destruct (falsy (firstName st) || falsy (company st) || falsy (verifiedEmail st));
      repeat split; reflexivity.
  - unfold FE.step. cbn [FE.calls fst snd]. unfold exportToCSV, dispatch.
    destruct (prospects st) eqn:E; cbn; rewrite ?E; repeat split; reflexivity.
Qed.

(** X16: along the events the page offers, the error line is empty or
    holds the "required fields" message, never the "Company Domain" one;
    a submit always rewrites it (cleared when accepted, the message when
    refused), and no other event touches it, so a message stays on
    display through edits and searches until the next submit. *)
Theorem flow_error_line :
  (forall (events : list FE.Event) (page : State * gmap string string),
      error (fst page) = None \/ error (fst page) = Some log_error ->
      FE.offered_all events page = true ->
      error (fst (FE.run events page)) = None
      \/ error (fst (FE.run events page)) = Some log_error)
  /\
  (forall (e : FE.Event) (page : State * gmap string string),
      FE.offered e (fst page) = true ->
      error (fst (FE.step e page))
      = match e with
        | FE.Submit _ _ => if flow_accepts (fst page) then None else Some log_error
        | _ => error (fst page)
        end).
Proof.
  assert (Hstep : forall (e : FE.Event) (page : State * gmap string string),
             FE.offered e (fst page) = true ->
             error (fst (FE.step e page))
             = match e with
               | FE.Submit _ _ =>
                   if flow_accepts (fst page) then None else Some log_error
               | _ => error (fst page)
               end).
  { intros e [st store] H. now apply flow_step_effect. }
  split; [|exact Hstep].
  intros events. induction events as [|e rest IH]; intros page H Hoff.
  - exact H.
  - cbn [FE.run FE.offered_all] in *.
    apply andb_prop in Hoff as [He Hrest].
    apply IH; [|exact Hrest].
    rewrite (Hstep e page He).
    destruct e; try exact H.
    destruct (flow_accepts (fst page)); auto.
Qed.

Lemma flow_error_line_witness :
  error (fst (FE.run [ FE.Submit 5 "2024-10-27T03:33:20.000Z";
                       FE.ChangeCompany "Acme"; FE.ClickSearch "linkedin" ]
                (no_company_flow, ∅))) = Some log_error.
Proof.
  pose proof (proj2 flow_error_line (FE.ClickSearch "linkedin")
                (FE.run [ FE.Submit 5 "2024-10-27T03:33:20.000Z";
                          FE.ChangeCompany "Acme" ] (no_company_flow, ∅))
                eq_refl) as H.
  exact H.
Defined.

End FlowSteps.

(** ** What every run of the workflow page keeps *)
Section FlowInvariants.

Import WorkflowHelper.

(** The list and the store after any event, offered or not. *)
Lemma flow_step_list_store (e : FE.Event) (st : State) (store : gmap string string) :
  (prospects (fst (FE.step e (st, store))) = prospects st
   /\ snd (FE.step e (st, store)) = store)
  \/ (exists (now : Z) (iso : string),
         e = FE.Submit now iso /\ flow_accepts st = true /\
         prospects (fst (FE.step e (st, store))) = newProspect now iso st :: prospects st /\
         snd (FE.step e (st, store))
         = saveProspects (newProspect now iso st :: prospects st) store).
Proof.
  destruct e; try (left; split; reflexivity).
  - left. unfold FE.step. cbn [FE.calls fst snd]. unfold handleSearch, dispatch.
    destruct (generateSearchUrl _ _ _ _ _) as [url|]; [destruct (truthy url)|];
      split; reflexivity.
  - unfold FE.step, flow_accepts. cbn [FE.calls fst snd].
    unfold handleLogProspect, dispatch.
    destruct (falsy (firstName st) || falsy (company st) || falsy (verifiedEmail st)).
    + left. split; reflexivity.
    + right. exists now, iso. repeat split; reflexivity.
  - left. unfold FE.step. cbn [FE.calls fst snd]. unfold exportToCSV, dispatch.
    destruct (prospects st) eqn:E; cbn; rewrite ?E; split; reflexivity.
Qed.

Lemma flow_run_invariant (Inv : State * gmap string string -> Prop) :
  (forall e page, Inv page -> Inv (FE.step e page)) ->
  forall events page, Inv page -> Inv (FE.run events page).
Proof.
  intros Hstep events. induction events as [|e rest IH]; intros page H.
  - exact H.
  - cbn [FE.run]. apply IH, Hstep, H.
Qed.

Lemma flow_accepts_complete (now : Z) (iso : string) (st : State) :
  flow_accepts st = true -> FE.complete (newProspect now iso st).
Proof.
  unfold flow_accepts, FE.complete, newProspect. cbn.
  destruct (firstName st), (company st), (verifiedEmail st);
    cbn; intros H; try discriminate H; repeat split; discriminate.
Qed.

(** X17: on the workflow page too, no sequence of events puts a record
    without first name, company or email in the list; and since this page
    never removes or rewrites a record, the list only grows: the list
    before the events is the tail end of the list after them. *)
Theorem flow_records_stay_complete
  (events : list FE.Event) (page : State * gmap string string) :
  Forall FE.complete (prospects (fst page)) ->
  Forall FE.complete (prospects (fst (FE.run events page)))
  /\ exists added : list Prospect,
       prospects (fst (FE.run events page)) = added ++ prospects (fst page).
Proof.
  intros H. split.
  - revert H.
    apply (flow_run_invariant (fun pg => Forall FE.complete (prospects (fst pg)))).
    intros e [st store] Hc. cbn [fst] in *.
    destruct (flow_step_list_store e st store)
      as [[-> _] | (now & iso & _ & Hacc & -> & _)]; [exact Hc|].
    constructor; [now apply flow_accepts_complete | exact Hc].
  - clear H. revert page.
    induction events as [|e rest IH]; intros page; [now exists []|].
    cbn [FE.run]. destruct (IH (FE.step e page)) as [added ->].
    destruct page as [st store]. cbn [fst].
    destruct (flow_step_list_store e st store)
      as [[-> _] | (now & iso & _ & _ & -> & _)].
    + now exists added.
    + exists (added ++ [newProspect now iso st]).
      now rewrite <- List.app_assoc.
Qed.

Lemma flow_records_stay_complete_witness :
  Forall FE.complete
    (prospects
       (fst (FE.run [ FE.Submit 5 "2024-10-27T03:33:20.000Z";
                      FE.Submit 6 "2024-10-27T03:33:21.000Z";
                      FE.ChangeFirstName "Jo"; FE.ClickSearch "experte" ]
               (jane_flow, ∅)))).
Proof.
  apply flow_records_stay_complete.
  repeat constructor; discriminate.
Defined.

Lemma flow_step_synced (e : FE.Event) (page : State * gmap string string) :
  FE.synced page -> FE.synced (FE.step e page).
Proof.
  destruct page as [st store]. unfold FE.synced. cbn [fst snd]. intros H.
  destruct (flow_step_list_store e st store)
    as [[-> ->] | (now & iso & _ & _ & -> & ->)]; [exact H|].
  apply getItem_setItem.
Qed.

(** X18: once the store holds the text of the list, it does so after
    every further event, and a page loaded from that store finds the list
    that was in memory; keys other than the page's own are never
    written. *)
Theorem flow_store_follows_list
  (events : list FE.Event) (page : State * gmap string string) :
  (FE.synced page ->
   FE.synced (FE.run events page) /\
   loadProspects (snd (FE.run events page))
   = Value (prospects_json (prospects (fst (FE.run events page)))))
  /\
  (forall key : string,
      key <> storage_key ->
      getItem key (snd (FE.run events page)) = getItem key (snd page)).
Proof.
  split.
  - intros H.
    assert (Hs : FE.synced (FE.run events page)).
    { revert H. apply flow_run_invariant. exact flow_step_synced. }
    split; [exact Hs|].
    unfold FE.synced in Hs. unfold loadProspects. rewrite Hs.
    unfold prospects_json at 1. rewrite stringify_array_truthy.
    fold (prospects_json (prospects (fst (FE.run events page)))).
    now rewrite (parse_stringify _ (flow_prospects_representable _)).
  - intros key Hkey. revert page.
    induction events as [|e rest IH]; intros page; [reflexivity|].
    cbn [FE.run]. rewrite IH. destruct page as [st store]. cbn [snd].
    destruct (flow_step_list_store e st store)
      as [[_ ->] | (now & iso & _ & _ & _ & ->)]; [reflexivity|].
    unfold saveProspects, getItem, setItem.
    apply lookup_insert_ne. congruence.
Qed.

Lemma flow_store_follows_list_witness :
  loadProspects
    (snd (FE.run [ FE.ChangeCompany "Apex"; FE.Submit 6 "2024-10-28T09:00:00.000Z" ]
            (FE.step (FE.Submit 5 "2024-10-27T03:33:20.000Z") (jane_flow, ∅))))
  = Value
      (prospects_json
         (prospects
            (fst (FE.run [ FE.ChangeCompany "Apex";
                           FE.Submit 6 "2024-10-28T09:00:00.000Z" ]
                    (FE.step (FE.Submit 5 "2024-10-27T03:33:20.000Z")
                       (jane_flow, ∅)))))).
Proof.
  apply (proj1 (flow_store_follows_list
                  [ FE.ChangeCompany "Apex"; FE.Submit 6 "2024-10-28T09:00:00.000Z" ]
                  (FE.step (FE.Submit 5 "2024-10-27T03:33:20.000Z") (jane_flow, ∅)))).
  apply getItem_setItem.
Defined.

(** X19: an accepted submit empties the form and the error line, so a
    second submit right after it is refused: the list has grown by one
    record, the store is the one the first submit wrote, and the error
    line now shows the "required fields" message. *)
Theorem flow_submit_twice (now later : Z) (iso iso' : string) (st : State)
  (store : gmap string string) :
  firstName st <> "" -> company st <> "" -> verifiedEmail st <> "" ->
  FE.step (FE.Submit now iso) (st, store)
  = (mkState "" "" "" "" "" (newProspect now iso st :: prospects st) None,
     saveProspects (newProspect now iso st :: prospects st) store)
  /\
  FE.run [FE.Submit now iso; FE.Submit later iso'] (st, store)
  = (mkState "" "" "" "" "" (newProspect now iso st :: prospects st) (Some log_error),
     saveProspects (newProspect now iso st :: prospects st) store).
Proof.
  intros Hf Hc He.
  assert (E : FE.step (FE.Submit now iso) (st, store)
              = (mkState "" "" "" "" "" (newProspect now iso st :: prospects st) None,
                 saveProspects (newProspect now iso st :: prospects st) store)).
  { unfold FE.step. cbn [FE.calls fst snd]. unfold handleLogProspect.
    rewrite (falsy_three _ _ _ Hf Hc He). reflexivity. }
  split; [exact E|].
  cbn [FE.run]. rewrite E. reflexivity.
Qed.

Lemma flow_submit_twice_witness :
  prospects (fst (FE.run [ FE.Submit 5 "2024-10-27T03:33:20.000Z";
                           FE.Submit 6 "2024-10-27T03:33:21.000Z" ]
                    (jane_flow, ∅)))
  = newProspect 5 "2024-10-27T03:33:20.000Z" jane_flow :: prospects jane_flow.
Proof.
  rewrite (proj2 (flow_submit_twice 5 6 "2024-10-27T03:33:20.000Z"
                    "2024-10-27T03:33:21.000Z" jane_flow ∅
                    ltac:(discriminate) ltac:(discriminate) ltac:(discriminate))).
  reflexivity.
Defined.

End FlowInvariants.

(** ** New records of the workflow page *)
Section FlowRecords.

Import WorkflowHelper.

Lemma digits_of_N_inj (m n : N) : digits_of_N m = digits_of_N n -> m = n.
Proof.
  intros H. rewrite <- (N_of_digits_of_N m), <- (N_of_digits_of_N n).
  now rewrite H.
Qed.

Lemma digits_of_N_no_minus (m : N) (s : string) : digits_of_N m <> "-" +:+ s.
Proof.
  unfold digits_of_N. pose proof (to_uint_shape m) as Hs.
  destruct (N.to_uint m); try contradiction; discriminate.
Qed.

Lemma number_to_string_inj (m n : Z) :
  number_to_string m = number_to_string n -> m = n.
Proof.
  unfold number_to_string.
  destruct (Z.ltb_spec m 0) as [Hm | Hm]; destruct (Z.ltb_spec n 0) as [Hn | Hn];
    intros H.
  - injection H as H. apply digits_of_N_inj in H. lia.
  - symmetry in H. now apply digits_of_N_no_minus in H.
  - now apply digits_of_N_no_minus in H.
  - apply digits_of_N_inj in H. lia.
Qed.

(** X20: a new record's id is the decimal text of the clock value, so
    records logged at different clock values get different ids; its date
    is the part of the ISO timestamp before the first [T], the whole
    timestamp if there is none. *)
Theorem flow_new_record_id_and_date :
  (forall (now now' : Z) (iso iso' : string) (st st' : State),
      p_id (newProspect now iso st) = p_id (newProspect now' iso' st') ->
      now = now')
  /\
  (forall (now : Z) (date time : string) (st : State),
      includes_unit "T" date = false ->
      p_dateAdded (newProspect now (date +:+ "T" +:+ time) st) = date)
  /\
  (forall (now : Z) (iso : string) (st : State),
      includes_unit "T" iso = false ->
      p_dateAdded (newProspect now iso st) = iso).
Proof.
  split; [| split].
  - intros now now' iso iso' st st'. cbn [newProspect p_id].
    apply number_to_string_inj.
  - intros now date time st H. cbn [newProspect p_dateAdded].
    unfold split_first.
    change (date +:+ "T" +:+ time) with (date +:+ String "T" time).
    now rewrite (split_on_append "T" date time H).
  - intros now iso st H. cbn [newProspect p_dateAdded].
    unfold split_first. now rewrite (split_on_free "T" iso H).
Qed.

Lemma flow_new_record_id_and_date_witness :
  p_dateAdded (newProspect 1730000000000 ("2024-10-27" +:+ "T" +:+ "03:33:20.000Z")
                 jane_flow)
  = "2024-10-27".
Proof.
  apply (proj1 (proj2 flow_new_record_id_and_date) 1730000000000 "2024-10-27"
           "03:33:20.000Z" jane_flow).
  reflexivity.
Defined.

End FlowRecords.

(** ** Rows of the CSV document *)
Section CsvRows.

(** Two texts that agree up to a first separator agree before and after
    it. *)
Lemma append_sep_inj (q : ascii) (a b x y : string) :
  includes_unit q a = false ->
  includes_unit q b = false ->
  a +:+ String q x = b +:+ String q y ->
  a = b /\ x = y.
Proof.
  revert b. induction a as [|c a IH]; intros [|d b] Ha Hb H.
  - injection H as ->. auto.
  - cbn in H. injection H as <- _. cbn in Hb. now rewrite Ascii.eqb_refl in Hb.
  - cbn in H. injection H as -> _. cbn in Ha. now rewrite Ascii.eqb_refl in Ha.
  - cbn in H, Ha, Hb. injection H as -> H.
    apply orb_false_iff in Ha as [_ Ha]. apply orb_false_iff in Hb as [_ Hb].
    destruct (IH b Ha Hb H) as [-> ->]. auto.
Qed.

Ltac quote_free_fields H :=
  repeat (apply andb_prop in H as [H ?]);
  repeat match goal with
         | E : negb _ = true |- _ => apply negb_true_iff in E
         end.

Ltac next_field H :=
  apply append_sep_inj in H as [? H]; [| assumption | assumption].

(** X21: rows tell records apart as long as no field holds a double
    quote: two such records with the same row have the same exported
    fields. Without that condition they need not, since nothing is
    escaped: the two sample records differ in their first and last names
    and have the same row. *)
Theorem csv_row_determines_fields :
  (forall p q : P.Prospect,
      hub_quote_free p = true -> hub_quote_free q = true ->
      P.csv_row p = P.csv_row q ->
      P.p_firstName p = P.p_firstName q /\ P.p_lastName p = P.p_lastName q /\
      P.p_company p = P.p_company q /\ P.p_domain p = P.p_domain q /\
      P.p_email p = P.p_email q /\ P.p_title p = P.p_title q /\
      P.p_status p = P.p_status q)
  /\
  (forall p q : W.Prospect,
      flow_quote_free p = true -> flow_quote_free q = true ->
      W.csv_row p = W.csv_row q ->
      W.p_firstName p = W.p_firstName q /\ W.p_lastName p = W.p_lastName q /\
      W.p_company p = W.p_company q /\ W.p_companyDomain p = W.p_companyDomain q /\
      W.p_email p = W.p_email q /\ W.p_dateAdded p = W.p_dateAdded q)
  /\
  (P.csv_row quote_in_first = P.csv_row quote_in_last
   /\ P.p_firstName quote_in_first <> P.p_firstName quote_in_last).
Proof.
  split; [| split].
  - intros p q Hp Hq H. unfold hub_quote_free in Hp, Hq.
    quote_free_fields Hp. quote_free_fields Hq.
    unfold P.csv_row, DQ in H. cbn [append] in H.
    injection H as H.
    next_field H. injection H as H.
    next_field H. injection H as H.
    next_field H. injection H as H.
    next_field H. injection H as H.
    next_field H. injection H as H.
    next_field H. injection H as H.
    next_field H.
    repeat split; assumption.
  - intros p q Hp Hq H. unfold flow_quote_free in Hp, Hq.
    quote_free_fields Hp. quote_free_fields Hq.
    unfold W.csv_row, DQ in H. cbn [join append] in H.
    rewrite !append_assoc in H. cbn [append] in H.
    injection H as H.
    next_field H. injection H as H.
    next_field H. injection H as H.
    next_field H. injection H as H.
    next_field H. injection H as H.
    next_field H. injection H as H.
    next_field H.
    repeat split; assumption.
  - split; [reflexivity | discriminate].
Qed.

Lemma csv_row_determines_fields_witness :
  P.p_firstName (P.newProspect 1 jane_hub) = P.p_firstName (P.newProspect 2 jane_hub)
  /\ P.p_status (P.newProspect 1 jane_hub) = P.p_status (P.newProspect 2 jane_hub).
Proof.
  pose proof (proj1 csv_row_determines_fields
                (P.newProspect 1 jane_hub) (P.newProspect 2 jane_hub)
                eq_refl eq_refl eq_refl) as H.
  split; [apply H | apply H].
Defined.

End CsvRows.

(** ** Addresses built by the workflow page *)
Section FlowAddresses.

Import WorkflowHelper.

Lemma encode_append (keep : ascii -> bool) (a b : string) :
  encode keep (a +:+ b) = encode keep a +:+ encode keep b.
Proof.
  induction a as [|c a IH]; [reflexivity|].
  cbn [encode append]. now rewrite IH, append_assoc.
Qed.

Lemma encode_unit_uri_char (keep : ascii -> bool) (c : ascii) :
  (keep c = true -> uri_char c = true) ->
  every uri_char (encode_unit keep c) = true.
Proof.
  intros Hkeep. unfold encode_unit.
  destruct (keep c) eqn:E.
  - cbn [every]. now rewrite Hkeep.
  - clear. destruct c as [[] [] [] [] [] [] [] []]; reflexivity.
Qed.

Lemma encode_uri_char (keep : ascii -> bool) (s : string) :
  (forall c, keep c = true -> uri_char c = true) ->
  every uri_char (encode keep s) = true.
Proof.
  intros Hkeep. induction s as [|c s IH]; [reflexivity|].
  cbn [encode]. rewrite every_append, IH, andb_true_r.
  apply encode_unit_uri_char, Hkeep.
Qed.

Lemma encodeURIComponent_uri_char (s : string) :
  every uri_char (encodeURIComponent s) = true.
Proof.
  apply encode_uri_char. intros c H. unfold uri_char. now rewrite H.
Qed.

Lemma encodeURI_uri_char (s : string) : every uri_char (encodeURI s) = true.
Proof.
  apply encode_uri_char. intros c H. unfold uri_char. now rewrite H.
Qed.

Lemma every_excludes (f : ascii -> bool) (c : ascii) (s : string) :
  every f s = true -> f c = false -> includes_unit c s = false.
Proof.
  intros Hs Hc. induction s as [|d s IH]; [reflexivity|].
  cbn [every includes_unit] in *. apply andb_prop in Hs as [Hd Hs].
  rewrite (IH Hs), orb_false_r.
  destruct (Ascii.eqb_spec d c) as [-> | _]; [congruence | reflexivity].
Qed.

(** X22: every address [generateSearchUrl] returns, for any service and
    any form content, is made of address characters only (unescaped
    characters, the separators of the fixed prefix, percent escapes): it
    holds no space, quote or line feed, and it starts with one of the
    three fixed prefixes. *)
Theorem generateSearchUrl_address (service f l c d url : string) :
  generateSearchUrl service f l c d = Some url ->
  every uri_char url = true /\
  includes_unit " " url = false /\
  includes_unit (ascii_of_nat 34) url = false /\
  includes_unit (ascii_of_nat 10) url = false /\
  exists rest : string,
    url = "https://www.google.com/search?q=" +:+ rest
    \/ url = "https://www.linkedin.com/search/results/people/?keywords=" +:+ rest
    \/ url = "https://www.experte.com/email-finder?name=" +:+ rest.
Proof.
  intros H.
  assert (Hev : every uri_char url = true
                /\ exists rest : string,
                    url = "https://www.google.com/search?q=" +:+ rest
                    \/ url = "https://www.linkedin.com/search/results/people/?keywords="
                             +:+ rest
                    \/ url = "https://www.experte.com/email-finder?name=" +:+ rest).
  { unfold generateSearchUrl in H.
    destruct (String.eqb service "google_company").
    { apply (inj Some) in H. subst url. split; [|eauto].
      rewrite every_append, encodeURIComponent_uri_char. reflexivity. }
    destruct (String.eqb service "linkedin").
    { apply (inj Some) in H. subst url. split; [|eauto].
      rewrite every_append, encodeURIComponent_uri_char. reflexivity. }
    destruct (String.eqb service "experte"); [|discriminate].
    destruct (falsy d); [discriminate|].
    apply (inj Some) in H. subst url. split; [|eauto 6].
    rewrite !every_append, !encodeURIComponent_uri_char. reflexivity. }
  destruct Hev as [Hev Hrest].
  repeat split; try exact Hev; try exact Hrest;
    apply (every_excludes uri_char _ _ Hev); reflexivity.
Qed.

Lemma generateSearchUrl_address_witness :
  every uri_char
    "https://www.linkedin.com/search/results/people/?keywords=Jane%20Doe%20R%26D%20%22Labs%22"
  = true.
Proof.
  apply (generateSearchUrl_address "linkedin" " Jane" "Doe "
           ("R&D " +:+ DQ +:+ "Labs" +:+ DQ) ""
           "https://www.linkedin.com/search/results/people/?keywords=Jane%20Doe%20R%26D%20%22Labs%22"
           eq_refl).
Defined.

(** X23: for a non-empty list the export clicks one link, named
    [prospect_list.csv], whose address is the data-URI prefix followed by
    the escaped document; the address holds address characters only, so
    the line feeds and double quotes of the document never appear in it
    as they are. *)
Theorem flow_export_link (l : list Prospect) :
  l <> [] ->
  exportToCSV l =
    [link_click ("data:text/csv;charset=utf-8," +:+ encodeURI (csv_document l))
       "prospect_list.csv"]
  /\ every uri_char ("data:text/csv;charset=utf-8," +:+ encodeURI (csv_document l)) = true
  /\ includes_unit (ascii_of_nat 10)
       ("data:text/csv;charset=utf-8," +:+ encodeURI (csv_document l)) = false
  /\ includes_unit (ascii_of_nat 34)
       ("data:text/csv;charset=utf-8," +:+ encodeURI (csv_document l)) = false.
Proof.
  intros Hne.
  assert (Hev : every uri_char
                  ("data:text/csv;charset=utf-8," +:+ encodeURI (csv_document l)) = true).
  { rewrite every_append, encodeURI_uri_char. reflexivity. }
  split.
  - destruct l as [|p rest]; [congruence|].
    unfold exportToCSV, csvContent, encodeURI.
    now rewrite encode_append.
  - repeat split; [exact Hev | |];
      apply (every_excludes uri_char _ _ Hev); reflexivity.
Qed.

Lemma flow_export_link_witness :
  exportToCSV (prospects jane_flow) =
    [link_click
       ("data:text/csv;charset=utf-8," +:+ encodeURI (csv_document (prospects jane_flow)))
       "prospect_list.csv"].
Proof. apply (flow_export_link (prospects jane_flow)). discriminate. Defined.

End FlowAddresses.
